(** * CSVTU-GPT: the question matcher and the site crawler

    A shallow embedding of
      - [Codes/Streamlit_app_local.py]: [find_common_word_matches],
        [get_best_matches], [check_for_syllabus], [display_response];
      - [Codes/Website-Scraping.py]: [extract_text_from_pdf],
        [save_to_file], [web_scraping_text].

    Conventions.
      - Text is [string] (a sequence of 8-bit characters).  [lower] and
        [split] below are Python's [str.lower] and [str.split()] on ASCII
        text; characters above 127 are left alone by [lower] and are never
        separators.
      - Python sets of words are [gset string]; Python lists are [list];
        a [dict] iterated in insertion order is an association list.
      - A pandas cell read from a text column is a string or missing (NaN).
      - DataFrames are objects shared by reference: the tables live in a
        heap and a [dict] of tables holds locations.
      - What the program asks of the outside world (HTTP requests, the
        fuzzy scorer, reading a CSV file) is an oracle given as a Section
        variable. *)

From Stdlib Require Import ZArith Ascii String.
From stdpp Require Import gmap strings list pretty sorting.

Open Scope string_scope.
Open Scope list_scope.
Open Scope nat_scope.

(** ** Python string primitives (ASCII) *)

Module PyStr.

Definition is_upper (c : ascii) : bool :=
  let n := nat_of_ascii c in (65 <=? n)%nat && (n <=? 90)%nat.

Definition lower_char (c : ascii) : ascii :=
  if is_upper c then ascii_of_nat (nat_of_ascii c + 32) else c.

(** [s.lower()] *)
Fixpoint lower (s : string) : string :=
  match s with
  | EmptyString => EmptyString
  | String c s' => String (lower_char c) (lower s')
  end.

(** The ASCII characters for which [str.isspace] holds: TAB, LF, VT, FF,
    CR, the separators FS, GS, RS, US, and the space. *)
Definition is_space (c : ascii) : bool :=
  let n := nat_of_ascii c in
  ((9 <=? n)%nat && (n <=? 13)%nat) || ((28 <=? n)%nat && (n <=? 32)%nat).

(** [s.split()]: the maximal runs of non-space characters, in order.
    [cur] is the word being read. *)
Fixpoint split_from (cur : string) (s : string) : list string :=
  match s with
  | EmptyString => if decide (cur = "") then [] else [cur]
  | String c s' =>
      if is_space c
      then (if decide (cur = "") then split_from "" s'
            else cur :: split_from "" s')
      else split_from (cur +:+ String c "") s'
  end.

Definition split (s : string) : list string := split_from "" s.

(** [pat in s] on strings *)
Fixpoint contains (pat s : string) : bool :=
  String.prefix pat s ||
  match s with
  | EmptyString => false
  | String _ s' => contains pat s'
  end.

(** [s.endswith(suffix)] *)
Definition endswith (s suffix : string) : bool :=
  String.prefix (String.rev suffix) (String.rev s).

(** [set(s.lower().split())] *)
Definition word_set (s : string) : gset string :=
  list_to_set (split (lower s)).

(** the characters of a string, for reasoning *)
Fixpoint chars (s : string) : list ascii :=
  match s with
  | EmptyString => []
  | String c s' => c :: chars s'
  end.

End PyStr.

(** ** The matcher ([Streamlit_app_local.py]) *)

Module Matcher.
Import PyStr.

(** *** Tables *)

(** A cell of a text column: a string, or NaN where the CSV field is
    empty ([pd.notna] tells them apart). *)
Inductive cell := Str (s : string) | NaN.

#[global] Instance cell_eq_dec : EqDecision cell.
Proof. solve_decision. Defined.

(** [str(c)], as used by [astype(str)] and by f-strings *)
Definition cell_str (c : cell) : string :=
  match c with Str s => s | NaN => "nan" end.

(** A DataFrame, column by column, in column order.  In a DataFrame all
    columns have the same number of cells. *)
Abbreviation DataFrame := (list (string * list cell)).

Definition columns (df : DataFrame) : list string := df.*1.

(** [df[name]] (the empty column if there is none of that name) *)
Fixpoint col (name : string) (df : DataFrame) : list cell :=
  match df with
  | [] => []
  | (n, v) :: df' => if decide (n = name) then v else col name df'
  end.

(** [df[name] = v] for an existing column *)
Fixpoint set_col (name : string) (v : list cell) (df : DataFrame) : DataFrame :=
  match df with
  | [] => []
  | (n, old) :: df' =>
      if decide (n = name) then (n, v) :: df' else (n, old) :: set_col name v df'
  end.

(** [{"Question", "Answer"}.issubset(df.columns)] *)
Definition has_qa (df : DataFrame) : bool :=
  bool_decide ("Question" ∈ columns df) && bool_decide ("Answer" ∈ columns df).

(** [df.iterrows()], each row seen through [row["Question"]] and
    [row["Answer"]] *)
Definition qa_rows (df : DataFrame) : list (cell * cell) :=
  zip (col "Question" df) (col "Answer" df).

(** [series.astype(str)] *)
Definition astype_str (v : list cell) : list cell := (λ c, Str (cell_str c)) <$> v.

(** [df[df["Question"] == question]["Answer"].values[0]]: the Answer of
    the first row whose Question is [question] *)
Fixpoint first_answer (question : cell) (rows : list (cell * cell)) : cell :=
  match rows with
  | [] => NaN
  | (q, a) :: rows' => if decide (q = question) then a else first_answer question rows'
  end.

(** [set(x.lower().split()) if pd.notna(x) else set()] *)
Definition cell_words (c : cell) : gset string :=
  match c with Str s => word_set s | NaN => ∅ end.

(** *** The Subject Directory *)

Definition Semester_subject_names : list (string * list string) :=
  [ ("Semester_1",
     [ "Engineering Mathematics I";
       "Environmental Science";
       "Foundations of Electronics Engineering";
       "Fundamentals of Computational Biology";
       "Language and Writing Skills";
       "Learning Programming Concepts With C";
       "Professional Ethics and Life Skills" ]);
    ("Semester_2",
     [ "Data Structure Using C";
       "Digital Logic and Design";
       "Engineering Mathematics II";
       "Entrepreneurship";
       "Object-Oriented Programming";
       "Python for Data Science" ]);
    ("Semester_3",
     [ "Analysis and Design of Algorithm";
       "Computer Organization and Architecture";
       "Database Management System";
       "Discrete Structure";
       "Independent Project";
       "Probability and Statistics" ]);
    ("Semester_4",
     [ "Artificial Intelligence Principles and Applications";
       "Computer Network";
       "Data Visualization";
       "Operating System";
       "R for Data Science";
       "Theory of Computation" ]);
    ("Semester_5",
     [ "Computational Complexity";
       "Cryptography and Network Security";
       "Intelligent Data Analysis";
       "Natural Language Processing";
       "Pattern Recognition and Machine Learning";
       "Vocational Training" ]);
    ("Semester_7",
     [ "Software Engineering";
       "Big Data Analytics";
       "Image Processing";
       "Data Wrangling" ]) ].

(** *** [check_for_syllabus] *)

Definition syllabus_file_of (semester : string) : string :=
  "Preprocessed_" +:+ semester +:+ "_Syllabus_Question_Answer.csv".

Definition semester_file (i : nat) : string :=
  "Preprocessed_Semester_" +:+ pretty i +:+ "_Syllabus_Question_Answer.csv".

(** the loop over [Semester_subject_names.items()] *)
Definition collect_syllabus_files (user_words : gset string)
    (directory : list (string * list string)) : list string :=
  fold_left
    (λ syllabus_files '(semester, subjects),
       if bool_decide (user_words ∩ list_to_set subjects ≠ ∅)
       then syllabus_files ++ [syllabus_file_of semester]
       else syllabus_files)
    directory [].

Definition check_for_syllabus (user_input : string) : list string :=
  let user_words := word_set user_input in
  let syllabus_files := collect_syllabus_files user_words Semester_subject_names in
  if bool_decide ("syllabus" ∈ user_words) then
    if decide (length syllabus_files = 1)
    then take 1 syllabus_files
    else filter (λ f, f ∈ syllabus_files) (semester_file <$> seq 1 7)
  else syllabus_files.

(** *** The state of one query

    [tables] is the heap of DataFrame objects, addressed by position;
    [screen] is what has been sent to the Streamlit page, oldest first;
    [entered] logs every entry into a matching stage, oldest first (it
    is not a variable of the program: it records the control flow). *)

Inductive widget :=
| st_write (s : string)
| st_success (s : string)
| st_warning (s : string)
| st_error (s : string)
| st_info (s : string).

Inductive stage := CommonWordStage | FuzzyStage.

#[global] Instance stage_eq_dec : EqDecision stage.
Proof. solve_decision. Defined.

Record world := World {
  tables : list DataFrame;
  screen : list widget;
  entered : list stage
}.

Definition M (A : Type) : Type := world → A * world.

Definition ret {A} (a : A) : M A := λ w, (a, w).

Definition bind {A B} (c : M A) (k : A → M B) : M B :=
  λ w, let '(a, w') := c w in k a w'.

#[local] Notation "x <- c ;; k" := (bind c (λ x, k))
  (at level 100, c at next level, right associativity).
#[local] Notation "c ;;; k" := (bind c (λ _, k))
  (at level 100, right associativity).

(** reading the DataFrame behind a reference *)
Definition read_table (l : nat) : M DataFrame :=
  λ w, (default [] (tables w !! l), w).

(** assigning into the DataFrame behind a reference *)
Definition write_table (l : nat) (df : DataFrame) : M unit :=
  λ w, (tt, World (<[l := df]> (tables w)) (screen w) (entered w)).

(** a DataFrame that did not exist before ([pd.read_csv]) *)
Definition new_table (df : DataFrame) : M nat :=
  λ w, (length (tables w), World (tables w ++ [df]) (screen w) (entered w)).

Definition show (x : widget) : M unit :=
  λ w, (tt, World (tables w) (screen w ++ [x]) (entered w)).

Definition enter (s : stage) : M unit :=
  λ w, (tt, World (tables w) (screen w) (entered w ++ [s])).

(** [for x in l: acc = f(acc, x)] *)
Fixpoint foldM {A B} (f : B → A → M B) (l : list A) (b : B) : M B :=
  match l with
  | [] => ret b
  | x :: l' => b' <- f b x ;; foldM f l' b'
  end.

(** [for x in l: body(x)] *)
Fixpoint for_each {A} (l : list A) (body : A → M unit) : M unit :=
  match l with
  | [] => ret tt
  | x :: l' => body x ;;; for_each l' body
  end.

(** *** Candidates: [(file_name, question, score, answer)] *)

Definition candidate : Type := string * cell * Z * cell.

Definition score_of (c : candidate) : Z := let '(_, _, s, _) := c in s.

(** *** [find_common_word_matches] *)

(** the body of the loop over the rows *)
Definition common_word_row (file_name : string) (user_words : gset string)
    (matches : list candidate) (row : cell * cell) : list candidate :=
  let '(question, answer) := row in
  let question_words := cell_words question in
  let answer_words := cell_words answer in
  if bool_decide (user_words ⊆ question_words ∪ answer_words)
  then matches ++ [(file_name, question, 100%Z, answer)]
  else
    let common_words := user_words ∩ (question_words ∪ answer_words) in
    if bool_decide (common_words ≠ ∅)
    then matches ++ [(file_name, question, 70%Z, answer)]
    else matches.

Definition find_common_word_matches (user_input : string)
    (data : list (string * nat)) : M (list candidate) :=
  enter CommonWordStage ;;;
  let user_words := word_set user_input in
  foldM
    (λ matches '(file_name, l),
       df <- read_table l ;;
       if has_qa df
       then ret (fold_left (common_word_row file_name user_words) (qa_rows df) matches)
       else ret matches)
    data [].

(** *** [get_best_matches] *)

(** [sorted(matches, key=lambda x: x[2], reverse=True)]: a stable sort,
    highest score first; equal scores keep their order. *)
Fixpoint insert_desc (x : candidate) (l : list candidate) : list candidate :=
  match l with
  | [] => [x]
  | y :: l' =>
      if (score_of y <=? score_of x)%Z then x :: y :: l'
      else y :: insert_desc x l'
  end.

Definition sorted_desc (l : list candidate) : list candidate :=
  foldr insert_desc [] l.

(** [l[:n]] for an [int] [n]: a negative [n] counts from the end. *)
Definition slice_to {A} (n : Z) (l : list A) : list A :=
  if (0 <=? n)%Z then take (Z.to_nat n) l
  else take (length l - Z.to_nat (- n)) l.

Section Oracles.

(** [process.extractOne(user_input, [question])[1]] of fuzzywuzzy *)
Variable fuzz_score : string → string → Z.

(** [pd.read_csv(path)]; [None] when it raises *)
Variable read_csv : string → option DataFrame.

(** the body of the loop over the tables *)
Definition fuzzy_table (user_input : string) (matches : list candidate)
    (entry : string * nat) : M (list candidate) :=
  let '(file_name, l) := entry in
  df <- read_table l ;;
  if has_qa df then
    write_table l (set_col "Question" (astype_str (col "Question" df)) df) ;;;
    df <- read_table l ;;
    write_table l (set_col "Answer" (astype_str (col "Answer" df)) df) ;;;
    df <- read_table l ;;
    ret (fold_left
           (λ matches question,
              matches ++
              [(file_name, question,
                fuzz_score user_input (cell_str question),
                first_answer question (qa_rows df))])
           (col "Question" df) matches)
  else ret matches.

Definition get_best_matches (user_input : string)
    (data : list (string * nat)) (top_n : Z) : M (list candidate) :=
  enter FuzzyStage ;;;
  matches <- foldM (fuzzy_table user_input) data [] ;;
  ret (slice_to top_n (sorted_desc matches)).

(** *** [display_response] *)

Definition nl : string := String (ascii_of_nat 10) "".

Definition qa_text (question answer : cell) : string :=
  "**Question:** " +:+ cell_str question +:+ nl +:+ nl +:+
  "**Answer:** " +:+ cell_str answer.

(** the four-way bucketing of a fuzzy candidate *)
Definition show_scored (c : candidate) : M unit :=
  let '(_, question, score, answer) := c in
  if (90 <=? score)%Z then show (st_success (qa_text question answer))
  else if (80 <=? score)%Z then show (st_warning (qa_text question answer))
  else if (70 <=? score)%Z then show (st_error (qa_text question answer))
  else show (st_info (qa_text question answer)).

Definition show_exact (c : candidate) : M unit :=
  let '(_, question, _, answer) := c in
  show (st_success (qa_text question answer)).

Inductive outcome := Returned | Raised.

Definition display_response (user_input : string)
    (data : list (string * nat)) (university_file_path : string) : M outcome :=
  let syllabus_files := check_for_syllabus user_input in
  if negb (bool_decide (syllabus_files = [])) then
    show (st_write "### Relevant Syllabus Files") ;;;
    for_each syllabus_files (λ syllabus_file, show (st_write ("- " +:+ syllabus_file))) ;;;
    ret Returned
  else if negb (bool_decide (user_input = "")) then
    let filtered_data := filter (λ kv, kv.1 ≠ university_file_path) data in
    common_word_matches <- find_common_word_matches user_input filtered_data ;;
    if negb (bool_decide (common_word_matches = [])) then
      let matches := take 3 common_word_matches in
      show (st_write "### Exact Matches") ;;;
      for_each matches show_exact ;;;
      ret Returned
    else
      show (st_write "### Fuzzy Matches") ;;;
      matches <- get_best_matches user_input filtered_data 3 ;;
      if negb (bool_decide (matches = [])) then
        for_each matches show_scored ;;;
        ret Returned
      else
        match read_csv university_file_path with
        | None => ret Raised
        | Some csv =>
            l <- new_table csv ;;
            university_data <- read_table l ;;
            if has_qa university_data then
              write_table l (set_col "Question"
                               (astype_str (col "Question" university_data))
                               university_data) ;;;
              university_data <- read_table l ;;
              write_table l (set_col "Answer"
                               (astype_str (col "Answer" university_data))
                               university_data) ;;;
              matches <- get_best_matches user_input [("University", l)] 3 ;;
              if negb (bool_decide (matches = [])) then
                for_each matches show_scored ;;;
                ret Returned
              else
                show (st_warning "Sorry, no relevant answers found.") ;;;
                ret Returned
            else ret Returned
        end
  else ret Returned.

End Oracles.

(** *** [load_data_from_directory] *)

(** [os.path.join(a, b)] of [posixpath] *)
Definition os_path_join (a b : string) : string :=
  if String.prefix "/" b then b
  else if bool_decide (a = "") || endswith a "/" then a +:+ b
  else a +:+ "/" +:+ b.

(** [d[key] = value]: a key that is there keeps its place *)
Fixpoint dict_set {V} (key : string) (value : V) (d : list (string * V))
    : list (string * V) :=
  match d with
  | [] => [(key, value)]
  | (k, v) :: d' =>
      if decide (k = key) then (k, value) :: d' else (k, v) :: dict_set key value d'
  end.

Section Loading.

(** [os.listdir(path)]; [None] when it raises *)
Variable listdir : string → option (list string).

(** [pd.read_csv(path)]; [None] when it raises *)
Variable read_csv : string → option DataFrame.

(** the text of the exception that [pd.read_csv(path)] raises *)
Variable error_text : string → string.

(** the body of the loop over the directory *)
Definition load_file (directory_path university_file : string)
    (dataframes : list (string * nat)) (file_name : string)
    : M (list (string * nat)) :=
  if endswith file_name ".csv" && negb (bool_decide (file_name = university_file))
  then
    let file_path := os_path_join directory_path file_name in
    match read_csv file_path with
    | Some csv =>
        df <- new_table csv ;;
        ret (dict_set file_name df dataframes)
    | None =>
        show (st_write ("Failed to read " +:+ file_name +:+ ": " +:+
                        error_text file_path)) ;;;
        ret dataframes
    end
  else ret dataframes.

(** The result is [None] when [os.listdir] raises.  The cache of
    [st.cache_data] is left out: this is one run of the body. *)
Definition load_data_from_directory (directory_path : string)
    : M (option (list (string * nat) * string)) :=
  let university_file := "University_Website_Data_Question_Answer.csv" in
  match listdir directory_path with
  | None => ret None
  | Some file_names =>
      dataframes <- foldM (load_file directory_path university_file) file_names [] ;;
      ret (Some (dataframes, university_file))
  end.

End Loading.

End Matcher.

(** ** The crawler ([Website-Scraping.py]) *)

Module Crawler.
Import PyStr.

(** Exceptions, as far as the handlers tell them apart:
    [requests.exceptions.ConnectTimeout], any other
    [requests.exceptions.RequestException], and everything else (a
    [KeyError], a PyPDF2 error, ...).  The first two carry the text that
    [print] shows. *)
Inductive exn :=
| ConnectTimeout (msg : string)
| RequestException (msg : string)
| OtherException.

(** What the program looks at in the answer to a request. *)
Record response := Response {
  (** [response.headers['content-type']]; [None]: no such header *)
  content_type : option string;
  (** [BeautifulSoup(r.content, 'lxml').get_text()] *)
  page_text : string;
  (** [link.get('href')] for each [link] of [soup.find_all('a')] *)
  hrefs : list (option string);
  (** [extractText()] of each page; [None]: the content is no readable PDF *)
  pdf_pages : option (list string)
}.

(** What happened, oldest first: a request sent, an address appended to
    [visited_links]. *)
Inductive event :=
| Get (url : string)
| Visited (url : string).

#[global] Instance event_eq_dec : EqDecision event.
Proof. solve_decision. Defined.

(** The module globals [visited_links], [pdf_links], [success_links], the
    file [Complete_website_data-1.txt], the standard output, and the log
    of events.  The functions expect the three lists to exist; the script
    leaves their assignment to empty lists (line 10) commented out. *)
Record state := State {
  visited_links : list string;
  pdf_links : list string;
  success_links : list string;
  corpus : string;
  stdout : list string;
  trace : list event
}.

(** How a call ends; [OutOfFuel]: it has not ended within the allowed
    depth of recursion. *)
Inductive outcome :=
| Normal
| Raise (e : exn)
| OutOfFuel.

(** [visited_links.append(url)] *)
Definition visit (url : string) (st : state) : state :=
  State (visited_links st ++ [url]) (pdf_links st) (success_links st)
        (corpus st) (stdout st) (trace st ++ [Visited url]).

(** [save_to_file(text)]: append to the corpus file *)
Definition save_to_file (text : string) (st : state) : state :=
  State (visited_links st) (pdf_links st) (success_links st)
        (corpus st +:+ text) (stdout st) (trace st).

Definition add_pdf_link (url : string) (st : state) : state :=
  State (visited_links st) (pdf_links st ++ [url]) (success_links st)
        (corpus st) (stdout st) (trace st).

Definition add_success_link (url : string) (st : state) : state :=
  State (visited_links st) (pdf_links st) (success_links st ++ [url])
        (corpus st) (stdout st) (trace st).

Definition print (line : string) (st : state) : state :=
  State (visited_links st) (pdf_links st) (success_links st)
        (corpus st) (stdout st ++ [line]) (trace st).

Definition is_get (e : event) : bool :=
  match e with Get _ => true | Visited _ => false end.

(** the number of requests sent so far *)
Definition requests_sent (st : state) : nat := length (filter is_get (trace st)).

Section Web.

(** [web n url]: the answer to [requests.get(url)] when [n] requests
    have been sent before; [inl e] when the call raises [e]. *)
Variable web : nat → string → exn + response.

Definition requests_get (url : string) (st : state) : (exn + response) * state :=
  (web (requests_sent st) url,
   State (visited_links st) (pdf_links st) (success_links st)
         (corpus st) (stdout st) (trace st ++ [Get url])).

(** *** [extract_text_from_pdf] *)

(** the [try] block *)
Definition extract_try (url : string) (st : state) : state * outcome :=
  if bool_decide (url ∉ visited_links st) then
    let '(r, st) := requests_get url st in
    match r with
    | inl e => (st, Raise e)
    | inr response =>
        match content_type response with
        | None => (st, Raise OtherException)
        | Some ct =>
            if contains "application/pdf" ct then
              match pdf_pages response with
              | None => (st, Raise OtherException)
              | Some pages =>
                  let text := fold_left (λ text page, text +:+ page) pages "" in
                  let st := save_to_file text st in
                  let st := visit url st in
                  let st := add_pdf_link url st in
                  (st, Normal)
              end
            else (st, Normal)
        end
    end
  else (st, Normal).

(** the [try] block under the bare [except:] *)
Definition extract_text_from_pdf (url : string) (st : state) : state * outcome :=
  match extract_try url st with
  | (st', Raise _) => (visit url st', Normal)
  | r => r
  end.

(** *** [web_scraping_text] *)

(** one turn of [for link in links:]; [rec] is the recursive call *)
Definition follow_link (rec : string → state → state * outcome)
    (link : option string) (st : state) : state * outcome :=
  match link with
  | Some href =>
      if contains "csvtu.ac.in" href && bool_decide (href ∉ visited_links st) then
        if endswith (lower href) ".pdf"
        then extract_text_from_pdf href st
        else rec href st
      else (st, Normal)
  | None => (st, Normal)
  end.

Fixpoint follow_links (rec : string → state → state * outcome)
    (links : list (option string)) (st : state) : state * outcome :=
  match links with
  | [] => (st, Normal)
  | link :: links' =>
      match follow_link rec link st with
      | (st', Normal) => follow_links rec links' st'
      | r => r
      end
  end.

(** the [try] block *)
Definition scrape_try (rec : string → state → state * outcome)
    (url : string) (st : state) : state * outcome :=
  let '(r, st) := requests_get url st in
  match r with
  | inl e => (st, Raise e)
  | inr r =>
      let text := page_text r in
      let st := if bool_decide (text ≠ "")
                then add_success_link url (save_to_file text st)
                else st in
      let links := hrefs r in
      let st := visit url st in
      follow_links rec links st
  end.

Fixpoint web_scraping_text (fuel : nat) (url : string) (st : state)
    : state * outcome :=
  match fuel with
  | 0 => (st, OutOfFuel)
  | S fuel' =>
      if bool_decide (url ∉ visited_links st) && contains "csvtu.ac.in" url then
        match scrape_try (web_scraping_text fuel') url st with
        | (st', Raise (ConnectTimeout _)) =>
            let st' := visit url st' in
            (print ("Connection to " +:+ url +:+
                    " timed out. Check your internet connection.") st',
             Normal)
        | (st', Raise (RequestException msg)) =>
            let st' := visit url st' in
            (print ("An error occurred: " +:+ msg) st', Normal)
        | r => r
        end
      else (st, Normal)
  end.

End Web.

(** the state in which a crawl starts: nothing visited, nothing written *)
Definition initial : state := State [] [] [] "" [] [].

End Crawler.

(** * Notions used in the statements *)

Section MatcherNotions.
Import PyStr Matcher.

(** the string holds an upper-case ASCII letter *)
Definition has_upper (s : string) : bool := existsb is_upper (chars s).

(** Spec wording: a row is recorded with the maximal score when the words of
    the query all occur in its Question or Answer, with the fixed lower
    score when only some do, and not at all otherwise. *)
Definition row_match (file_name : string) (user_words : gset string)
    (row : cell * cell) : option candidate :=
  let row_words := cell_words row.1 ∪ cell_words row.2 in
  if decide (user_words ⊆ row_words) then Some (file_name, row.1, 100%Z, row.2)
  else if decide (user_words ∩ row_words ≠ ∅) then Some (file_name, row.1, 70%Z, row.2)
  else None.

(** Spec wording: the matches, table after table in the order of the
    collection, row after row in the order of the table. *)
Definition matches_in_order (user_input : string) (data : list (string * nat))
    (tbls : list DataFrame) : list candidate :=
  flat_map
    (λ '(file_name, l),
       let df := default [] (tbls !! l) in
       if has_qa df then omap (row_match file_name (word_set user_input)) (qa_rows df)
       else [])
    data.

(** what the exact stage shows for a match *)
Definition exact_widget (c : candidate) : widget :=
  let '(_, question, _, answer) := c in st_success (qa_text question answer).

(** [x] may stand before [y] in a list sorted by falling score *)
Definition before_desc (x y : candidate) : Prop := (score_of y ≤ score_of x)%Z.

(** the two assignments of [get_best_matches] to one table *)
Definition coerce (df : DataFrame) : DataFrame :=
  let df1 := set_col "Question" (astype_str (col "Question" df)) df in
  set_col "Answer" (astype_str (col "Answer" df1)) df1.

(** the same, under the test for the two columns *)
Definition coerce_if_qa (df : DataFrame) : DataFrame :=
  if has_qa df then coerce df else df.

(** one turn of the loop over the tables, seen from the heap *)
Definition coerce_at (h : list DataFrame) (l : nat) : list DataFrame :=
  match h !! l with
  | Some df => <[l := coerce_if_qa df]> h
  | None => h
  end.

End MatcherNotions.

Section CrawlerNotions.
Import PyStr Crawler.

(** the addresses appended to [visited_links] along a log *)
Definition visits (tr : list event) : list string :=
  omap (λ e, match e with Visited u => Some u | Get _ => None end) tr.

(** every request of the log asks for an address that is not in
    [visited_links] at that moment; [vis] is the list when the log starts *)
Fixpoint respects (vis : list string) (tr : list event) : Prop :=
  match tr with
  | [] => True
  | Get u :: tr' => (u ∉ vis) ∧ respects vis tr'
  | Visited u :: tr' => respects (vis ++ [u]) tr'
  end.

(** [st'] comes after [st]: the log has grown by [new], [visited_links] by
    the addresses visited in [new], every request of [new] respects the
    list and asks for an address in [P] *)
Definition follows (P : string → Prop) (st st' : state) : Prop :=
  ∃ new,
    trace st' = trace st ++ new ∧
    visited_links st' = visited_links st ++ visits new ∧
    respects (visited_links st) new ∧
    ∀ u, Get u ∈ new → P u.

(** the addresses the crawler may ask for *)
Definition in_domain (u : string) : Prop := contains "csvtu.ac.in" u = true.

(** addresses that the loop hands to the PDF extractor *)
Definition is_pdf_link (u : string) : Prop := endswith (lower u) ".pdf" = true.

(** the number of addresses of the site not yet in [visited_links] *)
Definition remaining (site : list string) (st : state) : nat :=
  size (list_to_set site ∖ list_to_set (visited_links st) : gset string).

End CrawlerNotions.

(** a small site: the home page links a page, a link without address, a
    link to another domain, a PDF link answered by an HTML page, and a page
    whose request times out; the page links back, to that PDF link and to
    a PDF *)
Definition small_site (n : nat) (u : string) : Crawler.exn + Crawler.response :=
  if decide (u = "https://csvtu.ac.in/ew/") then
    inr (Crawler.Response (Some "text/html") "home"
           [Some "https://csvtu.ac.in/a"; None; Some "https://example.com/x";
            Some "https://csvtu.ac.in/f.PDF"; Some "https://csvtu.ac.in/b"] None)
  else if decide (u = "https://csvtu.ac.in/a") then
    inr (Crawler.Response (Some "text/html") "A"
           [Some "https://csvtu.ac.in/ew/"; Some "https://csvtu.ac.in/f.PDF";
            Some "https://csvtu.ac.in/g.pdf"] None)
  else if decide (u = "https://csvtu.ac.in/b") then
    inl (Crawler.ConnectTimeout "timed out")
  else if decide (u = "https://csvtu.ac.in/g.pdf") then
    inr (Crawler.Response (Some "application/pdf") "" [] (Some ["p1"; "p2"]))
  else inr (Crawler.Response (Some "text/html") "" [] None).

Section FuzzyNotions.
Import PyStr Matcher.

Variable fuzz_score : string → string → Z.

(** the candidates that the fuzzy stage makes of one table, row after row;
    [df] is the table after the two assignments *)
Definition fuzzy_rows (user_input file_name : string) (df : DataFrame)
    : list candidate :=
  (λ question,
     (file_name, question, fuzz_score user_input (cell_str question),
      first_answer question (qa_rows df))) <$> col "Question" df.

(** what the fuzzy stage collects before it sorts: table after table in
    the order of the collection *)
Definition fuzzy_in_order (user_input : string) (data : list (string * nat))
    (tbls : list DataFrame) : list candidate :=
  flat_map
    (λ '(file_name, l),
       let df := default [] (tbls !! l) in
       if has_qa df then fuzzy_rows user_input file_name (coerce df) else [])
    data.

(** the number of rows that the fuzzy stage looks at *)
Definition fuzzy_row_count (data : list (string * nat)) (tbls : list DataFrame)
    : nat :=
  sum_list
    ((λ '(_, l), let df := default [] (tbls !! l) in
                 if has_qa df then length (col "Question" df) else 0) <$> data).

(** what the fuzzy stage shows for a candidate *)
Definition scored_widget (c : candidate) : widget :=
  let '(_, question, score, answer) := c in
  if (90 <=? score)%Z then st_success (qa_text question answer)
  else if (80 <=? score)%Z then st_warning (qa_text question answer)
  else if (70 <=? score)%Z then st_error (qa_text question answer)
  else st_info (qa_text question answer).

End FuzzyNotions.

Section DisplayNotions.
Import PyStr Matcher.

Variable fuzz_score : string → string → Z.
Variable read_csv : string → option DataFrame.

(** what the fuzzy stage returns, read off the tables *)
Definition fuzzy_top (user_input : string) (data : list (string * nat))
    (top_n : Z) (tbls : list DataFrame) : list candidate :=
  slice_to top_n (sorted_desc (fuzzy_in_order fuzz_score user_input data tbls)).

(** What [display_response] does, branch by branch: the outcome, the
    tables, what is added to the screen, the stages entered. *)
Definition display_result (user_input : string) (data : list (string * nat))
    (university_file_path : string) (w : world) : outcome * world :=
  if decide (user_input = "") then (Returned, w) else
  let filtered_data := filter (λ kv, kv.1 ≠ university_file_path) data in
  let exact := matches_in_order user_input filtered_data (tables w) in
  if decide (exact ≠ []) then
    (Returned,
     World (tables w)
           (screen w ++ st_write "### Exact Matches" ::
                       (exact_widget <$> take 3 exact))
           (entered w ++ [CommonWordStage]))
  else
    let fuzzy := fuzzy_top user_input filtered_data 3 (tables w) in
    let tbls := foldl coerce_at (tables w) filtered_data.*2 in
    if decide (fuzzy ≠ []) then
      (Returned,
       World tbls
             (screen w ++ st_write "### Fuzzy Matches" ::
                         (scored_widget <$> fuzzy))
             (entered w ++ [CommonWordStage; FuzzyStage]))
    else
      match read_csv university_file_path with
      | None =>
          (Raised,
           World tbls (screen w ++ [st_write "### Fuzzy Matches"])
                 (entered w ++ [CommonWordStage; FuzzyStage]))
      | Some csv =>
          if has_qa csv then
            let last :=
              slice_to 3 (sorted_desc
                            (fuzzy_rows fuzz_score user_input "University"
                               (coerce csv))) in
            (Returned,
             World (tbls ++ [coerce csv])
                   (screen w ++ st_write "### Fuzzy Matches" ::
                      (if decide (last ≠ [])
                       then scored_widget <$> last
                       else [st_warning "Sorry, no relevant answers found."]))
                   (entered w ++ [CommonWordStage; FuzzyStage; FuzzyStage]))
          else
            (Returned,
             World (tbls ++ [csv]) (screen w ++ [st_write "### Fuzzy Matches"])
                   (entered w ++ [CommonWordStage; FuzzyStage]))
      end.

(** the ranges of score behind the four kinds of widget *)
Definition bucket_ok (c : candidate) (x : widget) : Prop :=
  let '(_, question, score, answer) := c in
  match x with
  | st_success t => (90 ≤ score)%Z ∧ t = qa_text question answer
  | st_warning t => (80 ≤ score < 90)%Z ∧ t = qa_text question answer
  | st_error t => (70 ≤ score < 80)%Z ∧ t = qa_text question answer
  | st_info t => (score < 70)%Z ∧ t = qa_text question answer
  | st_write _ => False
  end.

End DisplayNotions.

Section LoadNotions.
Import PyStr Matcher.

Variable read_csv : string → option DataFrame.
Variable error_text : string → string.

(** the name under which the university table is kept out *)
Definition university_file_name : string :=
  "University_Website_Data_Question_Answer.csv".

(** the names that [load_data_from_directory] tries to read *)
Definition eligible (file_name : string) : Prop :=
  endswith file_name ".csv" = true ∧ file_name ≠ university_file_name.

(** of the listed names, those that are read *)
Definition loaded_names (directory_path : string) (file_names : list string)
    : list string :=
  filter (λ n, eligible n ∧ is_Some (read_csv (os_path_join directory_path n)))
         file_names.

(** of the listed names, those whose reading raises *)
Definition failed_names (directory_path : string) (file_names : list string)
    : list string :=
  filter (λ n, eligible n ∧ read_csv (os_path_join directory_path n) = None)
         file_names.

(** the line shown for a file whose reading raises *)
Definition failure_line (directory_path file_name : string) : widget :=
  st_write ("Failed to read " +:+ file_name +:+ ": " +:+
            error_text (os_path_join directory_path file_name)).

End LoadNotions.

Section CrawlerLogNotions.
Import PyStr Crawler.

(** [st'] holds what [st] holds and possibly more: the corpus file, the
    three lists and the standard output have only been appended to *)
Definition grows (st st' : state) : Prop :=
  (∃ added, corpus st' = corpus st +:+ added) ∧
  visited_links st `prefix_of` visited_links st' ∧
  pdf_links st `prefix_of` pdf_links st' ∧
  success_links st `prefix_of` success_links st' ∧
  stdout st `prefix_of` stdout st'.

(** every address of [pdf_links] and of [success_links] is in
    [visited_links] *)
Definition logged_visited (st : state) : Prop :=
  ∀ u, u ∈ pdf_links st ∨ u ∈ success_links st → u ∈ visited_links st.

(** in the log [new] of a call that ends with [o], every request for a
    page address is followed at once by the append of that address to
    [visited_links], unless it is the last event and the call raises *)
Definition answered (new : list event) (o : outcome) : Prop :=
  ∀ a b u, new = a ++ Get u :: b → ¬ is_pdf_link u →
    (b = [] ∧ o = Raise OtherException) ∨ (∃ b', b = Visited u :: b').

(** the call that led from [st] to [r] answered its page requests and did
    not let a request exception through *)
Definition marks (st : state) (r : state * outcome) : Prop :=
  ∃ new,
    trace r.1 = trace st ++ new ∧ answered new r.2 ∧
    (∀ msg, r.2 ≠ Raise (ConnectTimeout msg)) ∧
    (∀ msg, r.2 ≠ Raise (RequestException msg)).

End CrawlerLogNotions.

(** * Properties *)

(** ** Words of a lowered string *)

Section StringFacts.
Import PyStr.

Lemma lower_char_not_upper c : is_upper (lower_char c) = false.
Proof. by destruct c as [[] [] [] [] [] [] [] []]. Qed.

Lemma chars_lower_not_upper s c : c ∈ chars (lower s) → is_upper c = false.
Proof.
  induction s as [|a s IH]; simpl.
  - by intros []%elem_of_nil.
  - intros [->|?]%elem_of_cons; [apply lower_char_not_upper | by apply IH].
Qed.

Lemma chars_app s t : chars (s +:+ t) = chars s ++ chars t.
Proof. induction s as [|a s IH]; simpl; [done | by rewrite IH]. Qed.

(** a word of [split_from cur s] is made of characters of [cur] and [s] *)
Lemma split_from_chars s : ∀ cur t c,
  t ∈ split_from cur s → c ∈ chars t → c ∈ chars cur ∨ c ∈ chars s.
Proof.
  induction s as [|a s IH]; intros cur t c; simpl.
  - destruct (decide (cur = "")); [by intros []%elem_of_nil |].
    intros ->%list_elem_of_singleton; auto.
  - destruct (is_space a).
    + destruct (decide (cur = "")).
      * intros Ht Hc. destruct (IH _ _ _ Ht Hc) as [[]%elem_of_nil|?].
        right; by apply elem_of_cons; right.
      * intros [->|Ht]%elem_of_cons Hc; [by left |].
        destruct (IH _ _ _ Ht Hc) as [[]%elem_of_nil|?].
        right; by apply elem_of_cons; right.
    + intros Ht Hc. destruct (IH _ _ _ Ht Hc) as [Hin|?].
      * rewrite chars_app in Hin. simpl in Hin.
        apply elem_of_app in Hin as [?| ->%list_elem_of_singleton]; [by left |].
        right; by apply elem_of_cons; left.
      * right; by apply elem_of_cons; right.
Qed.

(** no word of a lowered string holds an upper-case letter *)
Lemma word_set_lowercase s t c :
  t ∈ word_set s → c ∈ chars t → is_upper c = false.
Proof.
  unfold word_set, split. rewrite elem_of_list_to_set. intros Ht Hc.
  destruct (split_from_chars _ _ _ _ Ht Hc) as [[]%elem_of_nil|?].
  by eapply chars_lower_not_upper.
Qed.

Lemma word_set_no_upper s t : t ∈ word_set s → has_upper t = false.
Proof.
  intros Ht. unfold has_upper.
  destruct (existsb is_upper (chars t)) eqn:E; [| done].
  apply existsb_exists in E as (c & Hc%list_elem_of_In & Hu).
  by rewrite (word_set_lowercase _ _ _ Ht Hc) in Hu.
Qed.

End StringFacts.

(** ** The syllabus shortcut *)

Section SyllabusFacts.
Import PyStr Matcher.

(** filtering against the empty list keeps nothing *)
Lemma filter_against_nil (l : list string) :
  filter (λ f, f ∈ @nil string) l = [].
Proof.
  induction l as [|x l IH]; [done |].
  rewrite filter_cons_False; [done | by intros ?%elem_of_nil].
Qed.

(** the loop collects nothing when no semester shares a word with the query *)
Lemma collect_syllabus_files_nil (user_words : gset string) directory :
  (∀ semester subjects, (semester, subjects) ∈ directory →
     user_words ∩ list_to_set subjects = ∅) →
  collect_syllabus_files user_words directory = [].
Proof.
  unfold collect_syllabus_files. generalize (@nil string).
  induction directory as [|[semester subjects] directory IH]; intros acc H.
  - done.
  - simpl. rewrite bool_decide_eq_false_2.
    + apply IH. intros s' subj' Hin. apply (H s' subj'). by right.
    + intros Hne. apply Hne, (H semester subjects). by left.
Qed.

Lemma check_for_syllabus_no_subject user_input :
  collect_syllabus_files (word_set user_input) Semester_subject_names = [] →
  check_for_syllabus user_input = [].
Proof.
  intros E. unfold check_for_syllabus. rewrite E. simpl.
  destruct (bool_decide _); [apply filter_against_nil | done].
Qed.

(** every subject name of the directory holds an upper-case letter *)
Lemma subject_names_have_upper semester subjects subject :
  (semester, subjects) ∈ Semester_subject_names → subject ∈ subjects →
  has_upper subject = true.
Proof.
  intros Hs Hin.
  assert (Forall (λ e, Forall (λ s, has_upper s = true) e.2) Semester_subject_names) as HF.
  { unfold Semester_subject_names. repeat constructor. }
  rewrite Forall_forall in HF. specialize (HF _ Hs). simpl in HF.
  rewrite Forall_forall in HF. by apply HF.
Qed.

(** so no word of a query is a subject name *)
Lemma word_set_misses_subjects user_input semester subjects :
  (semester, subjects) ∈ Semester_subject_names →
  word_set user_input ∩ list_to_set subjects = ∅.
Proof.
  intros Hs. apply set_eq. intros w. split; [| by intros ?%not_elem_of_empty].
  intros [Hw Hin%elem_of_list_to_set]%elem_of_intersection.
  pose proof (subject_names_have_upper _ _ _ Hs Hin) as Hu.
  by rewrite (word_set_no_upper _ _ Hw) in Hu.
Qed.

(** the shortcut never fires *)
Lemma check_for_syllabus_nil user_input : check_for_syllabus user_input = [].
Proof.
  apply check_for_syllabus_no_subject, collect_syllabus_files_nil.
  intros. by eapply word_set_misses_subjects.
Qed.

(** C10.  For every input string [check_for_syllabus] returns the empty
    list: the words of the query are lower-case, every subject name of
    the directory holds an upper-case letter, so no semester is ever
    collected, and the [syllabus] branch filters against the empty list. *)
Theorem check_for_syllabus_always_empty user_input :
  (∀ semester subjects, (semester, subjects) ∈ Semester_subject_names →
     word_set user_input ∩ list_to_set subjects = ∅) ∧
  collect_syllabus_files (word_set user_input) Semester_subject_names = [] ∧
  check_for_syllabus user_input = [].
Proof.
  assert (∀ semester subjects, (semester, subjects) ∈ Semester_subject_names →
     word_set user_input ∩ list_to_set subjects = ∅) as H
    by (intros; by eapply word_set_misses_subjects).
  split; [done |]. split.
  - by apply collect_syllabus_files_nil.
  - by apply check_for_syllabus_no_subject, collect_syllabus_files_nil.
Qed.

(** C9.  A query whose lower-case words include [syllabus] and none of
    whose words is a subject name of the directory gets the empty list of
    syllabus files. *)
Theorem bare_syllabus_yields_nothing user_input :
  "syllabus" ∈ word_set user_input →
  (∀ w semester subjects, w ∈ word_set user_input →
     (semester, subjects) ∈ Semester_subject_names → w ∉ subjects) →
  check_for_syllabus user_input = [].
Proof.
  intros Hsyl Hnone. unfold check_for_syllabus.
  rewrite (collect_syllabus_files_nil (word_set user_input) Semester_subject_names).
  - rewrite bool_decide_eq_true_2 by done. simpl. apply filter_against_nil.
  - intros semester subjects Hs. apply set_eq. intros w.
    split; [| by intros ?%not_elem_of_empty].
    intros [Hw Hin%elem_of_list_to_set]%elem_of_intersection.
    by destruct (Hnone w semester subjects).
Qed.

Lemma bare_syllabus_yields_nothing_witness :
  check_for_syllabus "syllabus" = [].
Proof.
  assert (word_set "syllabus" = list_to_set ["syllabus"]) as E by reflexivity.
  apply bare_syllabus_yields_nothing.
  - rewrite E, elem_of_list_to_set. by left.
  - intros w semester subjects Hw Hs Hin.
    rewrite E, elem_of_list_to_set in Hw.
    apply list_elem_of_singleton in Hw as ->.
    pose proof (subject_names_have_upper _ _ _ Hs Hin) as Hu.
    vm_compute in Hu. discriminate Hu.
Defined.

End SyllabusFacts.

(** ** The common-word stage *)

Section CommonWordFacts.
Import PyStr Matcher.

Lemma common_word_rows_fold file_name user_words rows : ∀ matches,
  fold_left (common_word_row file_name user_words) rows matches =
  matches ++ omap (row_match file_name user_words) rows.
Proof.
  induction rows as [|[q a] rows IH]; intros matches; simpl.
  - by rewrite app_nil_r.
  - rewrite IH. unfold row_match at 2. simpl.
    destruct (decide (user_words ⊆ _)) as [Hs|Hs].
    + rewrite bool_decide_eq_true_2 by done. by rewrite <- app_assoc.
    + rewrite bool_decide_eq_false_2 by done.
      destruct (decide (_ ≠ ∅)) as [Hi|Hi].
      * rewrite bool_decide_eq_true_2 by done. by rewrite <- app_assoc.
      * by rewrite bool_decide_eq_false_2 by done.
Qed.

(** the stage reads the tables and returns its matches in order *)
Lemma find_common_word_matches_run user_input data w :
  find_common_word_matches user_input data w =
  (matches_in_order user_input data (tables w),
   World (tables w) (screen w) (entered w ++ [CommonWordStage])).
Proof.
  unfold find_common_word_matches, bind at 1, enter. simpl.
  set (w1 := World _ _ _).
  change (tables w) with (tables w1).
  rewrite <- (app_nil_l (matches_in_order _ _ _)).
  generalize (@nil candidate) as matches. generalize w1. clear w w1.
  induction data as [|[file_name l] data IH]; intros w matches; simpl.
  - by rewrite app_nil_r.
  - unfold bind at 1, bind at 1, read_table at 1.
    destruct (has_qa (default [] (tables w !! l))) eqn:E; unfold ret at 1.
    + rewrite IH, common_word_rows_fold. by rewrite <- app_assoc.
    + by rewrite IH.
Qed.

Lemma row_match_Some file_name user_words row c :
  row_match file_name user_words row = Some c →
  c = (file_name, row.1, score_of c, row.2) ∧
  ((score_of c = 100%Z ∧ user_words ⊆ cell_words row.1 ∪ cell_words row.2) ∨
   (score_of c = 70%Z ∧ user_words ⊈ cell_words row.1 ∪ cell_words row.2 ∧
    user_words ∩ (cell_words row.1 ∪ cell_words row.2) ≠ ∅)).
Proof.
  unfold row_match. destruct (decide (user_words ⊆ _)) as [Hs|Hs].
  - intros [= <-]. simpl. auto.
  - destruct (decide (_ ≠ ∅)) as [Hi|Hi]; [| done].
    intros [= <-]. simpl. auto.
Qed.

Lemma elem_of_matches_in_order user_input data tbls c :
  c ∈ matches_in_order user_input data tbls ↔
  ∃ file_name l row,
    (file_name, l) ∈ data ∧ has_qa (default [] (tbls !! l)) = true ∧
    row ∈ qa_rows (default [] (tbls !! l)) ∧
    row_match file_name (word_set user_input) row = Some c.
Proof.
  unfold matches_in_order. rewrite list_elem_of_In, in_flat_map. split.
  - intros ([file_name l] & Hin%list_elem_of_In & Hc).
    destruct (has_qa _) eqn:E; [| done].
    apply list_elem_of_In, list_elem_of_omap in Hc as (row & Hrow & Hm).
    by exists file_name, l, row.
  - intros (file_name & l & row & Hin & E & Hrow & Hm).
    exists (file_name, l). split; [by apply list_elem_of_In |].
    rewrite E. apply list_elem_of_In, list_elem_of_omap. by exists row.
Qed.

(** C4.  Scoring in the common-word stage.  Take a table of the collection
    with both columns and one of its rows.  If the words of the query all
    lie in the Question or Answer words of the row, the row is recorded, and
    only with score 100; else, if some word is shared, it is recorded, and
    only with score 70; else it is not recorded.  A query equal to the
    Question after lowercasing falls under the first case. *)
Theorem common_word_stage_scoring user_input data w file_name l df question answer :
  (file_name, l) ∈ data →
  tables w !! l = Some df →
  has_qa df = true →
  (question, answer) ∈ qa_rows df →
  let matches := (find_common_word_matches user_input data w).1 in
  let user_words := word_set user_input in
  let row_words := cell_words question ∪ cell_words answer in
  (user_words ⊆ row_words →
     (file_name, question, 100%Z, answer) ∈ matches ∧
     ∀ s, (file_name, question, s, answer) ∈ matches → s = 100%Z) ∧
  (user_words ⊈ row_words → user_words ∩ row_words ≠ ∅ →
     (file_name, question, 70%Z, answer) ∈ matches ∧
     ∀ s, (file_name, question, s, answer) ∈ matches → s = 70%Z) ∧
  (user_words ⊈ row_words → user_words ∩ row_words = ∅ →
     ∀ s, (file_name, question, s, answer) ∉ matches) ∧
  (∀ q, question = Str q → lower user_input = lower q →
     (file_name, question, 100%Z, answer) ∈ matches).
Proof.
  intros Hin Hl Hqa Hrow matches user_words row_words.
  subst matches. rewrite find_common_word_matches_run. simpl.
  assert (∀ c, row_match file_name user_words (question, answer) = Some c →
            c ∈ matches_in_order user_input data (tables w)) as Hrec.
  { intros c Hc. apply elem_of_matches_in_order.
    exists file_name, l, (question, answer). by rewrite Hl. }
  assert (∀ s, (file_name, question, s, answer) ∈
                 matches_in_order user_input data (tables w) →
            (s = 100%Z ∧ user_words ⊆ row_words) ∨
            (s = 70%Z ∧ user_words ⊈ row_words ∧ user_words ∩ row_words ≠ ∅)) as Honly.
  { intros s (f' & l' & [q' a'] & _ & _ & _ & Hm)%elem_of_matches_in_order.
    apply row_match_Some in Hm as [[= -> -> ->] Hcase]. exact Hcase. }
  assert (user_words ⊆ row_words →
          (file_name, question, 100%Z, answer) ∈
            matches_in_order user_input data (tables w)) as H100.
  { intros Hs. apply Hrec. unfold row_match. simpl.
    by rewrite decide_True by done. }
  split; [| split; [| split]].
  - intros Hs. split; [by apply H100 |].
    intros s [[-> _]|(_ & Hn & _)]%Honly; [done | by destruct Hn].
  - intros Hn Hi. split.
    + apply Hrec. unfold row_match. simpl.
      rewrite decide_False by done. by rewrite decide_True by done.
    + intros s [[_ Hs]|[-> _]]%Honly; [by destruct Hn | done].
  - intros Hn Hi s [[_ Hs]|(_ & _ & Hi')]%Honly; [by destruct Hn | by destruct Hi'].
  - intros q -> Hlow. apply H100. subst user_words row_words. simpl.
    unfold word_set. rewrite Hlow. set_solver.
Qed.


(** C4 at a row whose Question is the query up to case. *)
Lemma common_word_stage_scoring_witness :
  ("t.csv", Str "Database Management System", 100%Z, Str "A DBMS stores data.") ∈
  (find_common_word_matches "database management system" [("t.csv", 0)]
     (World [[("Question", [Str "Database Management System"]);
              ("Answer", [Str "A DBMS stores data."])]] [] [])).1.
Proof.
  refine (proj2 (proj2 (proj2
    (common_word_stage_scoring "database management system" [("t.csv", 0)]
       (World [[("Question", [Str "Database Management System"]);
                ("Answer", [Str "A DBMS stores data."])]] [] [])
       "t.csv" 0 _ (Str "Database Management System") (Str "A DBMS stores data.")
       _ _ _ _))) "Database Management System" eq_refl eq_refl).
  - by left.
  - reflexivity.
  - reflexivity.
  - by left.
Defined.

End CommonWordFacts.

(** ** [display_response] *)

Section DisplayFacts.
Import PyStr Matcher.

Variable fuzz_score : string → string → Z.
Variable read_csv : string → option DataFrame.

Lemma bind_run {A B} (c : M A) (k : A → M B) w :
  bind c k w = k (c w).1 (c w).2.
Proof. unfold bind. by destruct (c w). Qed.

Lemma for_each_show {A} (body : A → M unit) (f : A → widget) (l : list A) :
  (∀ x w, body x w = show (f x) w) →
  ∀ w, for_each l body w =
       (tt, World (tables w) (screen w ++ (f <$> l)) (entered w)).
Proof.
  intros Hbody. induction l as [|x l IH]; intros w; simpl.
  - unfold ret. rewrite app_nil_r. by destruct w.
  - unfold bind. rewrite Hbody. unfold show at 1. rewrite IH. simpl.
    by rewrite <- app_assoc.
Qed.

Lemma show_exact_widget c w : show_exact c w = show (exact_widget c) w.
Proof. by destruct c as [[[? ?] ?] ?]. Qed.

(** C3.  Stage precedence and truncation.  When the common-word stage is
    reached (the query is not empty) and yields at least one match,
    [display_response] returns after showing the heading and the first
    three matches at most, in the order in which the stage produced them,
    which is the order of the tables and of their rows; the fuzzy stage is
    not entered and no table is touched. *)
Theorem exact_matches_preempt_fuzzy user_input data university_file_path w :
  user_input ≠ "" →
  let filtered_data := filter (λ kv, kv.1 ≠ university_file_path) data in
  let common_word_matches :=
    (find_common_word_matches user_input filtered_data w).1 in
  common_word_matches ≠ [] →
  let r := display_response fuzz_score read_csv user_input data
             university_file_path w in
  r.1 = Returned ∧
  entered r.2 = entered w ++ [CommonWordStage] ∧
  (FuzzyStage ∉ drop (length (entered w)) (entered r.2)) ∧
  screen r.2 =
    screen w ++ st_write "### Exact Matches" ::
                (exact_widget <$> take 3 common_word_matches) ∧
  tables r.2 = tables w ∧
  common_word_matches = matches_in_order user_input filtered_data (tables w).
Proof.
  intros Hne filtered_data common_word_matches Hsome r.
  subst r. unfold display_response.
  rewrite check_for_syllabus_nil. simpl.
  rewrite (bool_decide_eq_false_2 (user_input = "")) by done. simpl.
  fold filtered_data. rewrite bind_run. fold common_word_matches.
  rewrite (bool_decide_eq_false_2 (common_word_matches = [])) by done. simpl.
  subst common_word_matches.
  rewrite find_common_word_matches_run. simpl.
  rewrite bind_run. unfold show at 1 2. simpl.
  rewrite bind_run.
  rewrite (for_each_show _ exact_widget) by apply show_exact_widget.
  unfold ret. simpl.
  repeat split.
  - rewrite drop_app_length. by intros ?%list_elem_of_singleton.
  - by rewrite <- app_assoc.
Qed.

End DisplayFacts.

(** C3 on one table of two rows, one of which holds the word of the query. *)
Lemma exact_matches_preempt_fuzzy_witness :
  let w := Matcher.World
             [[("Question", [Matcher.Str "What is DBMS"; Matcher.Str "Computer Network"]);
               ("Answer", [Matcher.Str "a database system"; Matcher.Str "linked computers"])]]
             [] [] in
  Matcher.screen
    (Matcher.display_response (λ _ _, 0%Z) (λ _, None) "dbms" [("t.csv", 0)] "u.csv" w).2 =
  [Matcher.st_write "### Exact Matches";
   exact_widget ("t.csv", Matcher.Str "What is DBMS", 100%Z, Matcher.Str "a database system")].
Proof.
  intros w.
  pose proof (exact_matches_preempt_fuzzy (λ _ _, 0%Z) (λ _, None)
                "dbms" [("t.csv", 0)] "u.csv" w) as H.
  destruct H as (_ & _ & _ & H & _); [done | by vm_compute |].
  exact H.
Defined.

(** ** The fuzzy stage: shape of the result *)

Section FuzzyShape.
Import PyStr Matcher.

Lemma insert_desc_elem x l y : y ∈ insert_desc x l → y = x ∨ y ∈ l.
Proof.
  induction l as [|z l IH]; simpl.
  - intros ->%list_elem_of_singleton. by left.
  - destruct (score_of z <=? score_of x)%Z.
    + intros [->|?]%elem_of_cons; auto.
    + intros [->|Hy]%elem_of_cons; [right; by left |].
      destruct (IH Hy) as [->|?]; [by left | right; by right].
Qed.

Lemma insert_desc_sorted x l :
  StronglySorted before_desc l → StronglySorted before_desc (insert_desc x l).
Proof.
  induction 1 as [|z l Hl IH Hz]; simpl.
  - repeat constructor.
  - destruct (score_of z <=? score_of x)%Z eqn:E.
    + apply Z.leb_le in E. constructor; [by constructor |].
      constructor; [done |].
      rewrite Forall_forall in Hz |- *. intros y Hy.
      specialize (Hz y Hy). unfold before_desc in *. lia.
    + apply Z.leb_gt in E. constructor; [done |].
      rewrite Forall_forall in Hz |- *. intros y Hy.
      destruct (insert_desc_elem _ _ _ Hy) as [->|Hy'].
      * unfold before_desc. lia.
      * by apply Hz.
Qed.

Lemma sorted_desc_sorted l : StronglySorted before_desc (sorted_desc l).
Proof.
  induction l as [|x l IH]; simpl; [constructor | by apply insert_desc_sorted].
Qed.

Lemma slice_to_take {A} (n : Z) (l : list A) : ∃ k, slice_to n l = take k l.
Proof. unfold slice_to. destruct (0 <=? n)%Z; eauto. Qed.

Lemma slice_to_length {A} (n : Z) (l : list A) :
  (0 ≤ n)%Z → (Z.of_nat (length (slice_to n l)) ≤ n)%Z.
Proof.
  intros Hn. unfold slice_to. rewrite (proj2 (Z.leb_le 0 n)) by done.
  rewrite length_take. lia.
Qed.

Lemma strongly_sorted_lookup (l : list candidate) :
  StronglySorted before_desc l →
  ∀ (i j : nat) ci cj, (i ≤ j)%nat → l !! i = Some ci → l !! j = Some cj →
    (score_of cj ≤ score_of ci)%Z.
Proof.
  induction 1 as [|x l Hl IH Hx]; intros i j ci cj Hij Hi Hj; [done |].
  destruct i as [|i], j as [|j]; simpl in *.
  - assert (ci = cj) as -> by congruence. lia.
  - injection Hi as <-. rewrite Forall_forall in Hx.
    apply (Hx cj). by eapply list_elem_of_lookup_2.
  - lia.
  - apply (IH i j); [lia | done | done].
Qed.

Section WithScorer.
Variable fuzz_score : string → string → Z.

Lemma get_best_matches_sliced user_input data top_n w :
  ∃ matches,
    (get_best_matches fuzz_score user_input data top_n w).1 =
    slice_to top_n (sorted_desc matches).
Proof.
  unfold get_best_matches. rewrite !bind_run. unfold ret. simpl. eauto.
Qed.

(** the candidates are in order of falling score whatever [top_n] is *)
Lemma get_best_matches_sorted user_input data top_n w :
  StronglySorted before_desc
    (get_best_matches fuzz_score user_input data top_n w).1.
Proof.
  destruct (get_best_matches_sliced user_input data top_n w) as [ms ->].
  destruct (slice_to_take top_n (sorted_desc ms)) as [k ->].
  pose proof (sorted_desc_sorted ms) as Hs.
  rewrite <- (take_drop k (sorted_desc ms)) in Hs.
  by apply StronglySorted_app_1_l in Hs.
Qed.

(** C5.  Shape of the result of the fuzzy stage: for a [top_n] that is not
    negative it returns at most [top_n] candidates (three by default), and
    the scores never rise from one position to a later one. *)
Theorem fuzzy_stage_output_shape user_input data top_n w :
  (0 ≤ top_n)%Z →
  let matches := (get_best_matches fuzz_score user_input data top_n w).1 in
  (Z.of_nat (length matches) ≤ top_n)%Z ∧
  (∀ (i j : nat) ci cj, (i ≤ j)%nat → matches !! i = Some ci → matches !! j = Some cj →
     (score_of cj ≤ score_of ci)%Z).
Proof.
  intros Hn matches. split.
  - subst matches.
    destruct (get_best_matches_sliced user_input data top_n w) as [ms ->].
    by apply slice_to_length.
  - apply strongly_sorted_lookup, get_best_matches_sorted.
Qed.

End WithScorer.
End FuzzyShape.

(** C5 with the default [top_n] on a table of four questions, scored by
    their length. *)
Lemma fuzzy_stage_output_shape_witness :
  let w := Matcher.World
             [[("Question", [Matcher.Str "a"; Matcher.Str "abcd"; Matcher.Str "ab";
                             Matcher.NaN]);
               ("Answer", [Matcher.Str "1"; Matcher.Str "2"; Matcher.Str "3";
                           Matcher.Str "4"])]] [] [] in
  let matches :=
    (Matcher.get_best_matches (λ _ q, Z.of_nat (String.length q)) "x"
       [("t.csv", 0)] 3 w).1 in
  (Z.of_nat (length matches) ≤ 3)%Z ∧
  (∀ (i j : nat) ci cj, (i ≤ j)%nat → matches !! i = Some ci → matches !! j = Some cj →
     (Matcher.score_of cj ≤ Matcher.score_of ci)%Z).
Proof.
  intros w.
  apply (fuzzy_stage_output_shape (λ _ q, Z.of_nat (String.length q)) "x"
           [("t.csv", 0)] 3 w).
  lia.
Defined.

(** ** What the stages do to the tables *)

Section TableFrame.
Import PyStr Matcher.

Lemma columns_set_col name v df : columns (set_col name v df) = columns df.
Proof.
  unfold columns. induction df as [|[n old] df IH]; simpl; [done |].
  destruct (decide (n = name)); simpl; [done | f_equal; apply IH].
Qed.

Lemma col_set_col_eq name v df :
  name ∈ columns df → col name (set_col name v df) = v.
Proof.
  unfold columns. induction df as [|[n old] df IH]; simpl.
  - by intros ?%elem_of_nil.
  - intros Hin. destruct (decide (n = name)) as [->|Hne]; simpl.
    + by rewrite decide_True.
    + rewrite decide_False by done. apply IH.
      apply elem_of_cons in Hin as [?|?]; [by subst | done].
Qed.

Lemma col_set_col_ne name n v df :
  n ≠ name → col n (set_col name v df) = col n df.
Proof.
  intros Hne. induction df as [|[m old] df IH]; simpl; [done |].
  destruct (decide (m = name)) as [->|Hm]; simpl.
  - by rewrite !decide_False by done.
  - destruct (decide (m = n)); [done | apply IH].
Qed.

Lemma set_col_same name df : set_col name (col name df) df = df.
Proof.
  induction df as [|[m old] df IH]; simpl; [done |].
  destruct (decide (m = name)); [done | by rewrite IH].
Qed.

Lemma astype_str_idemp v : astype_str (astype_str v) = astype_str v.
Proof. unfold astype_str. rewrite <- list_fmap_compose. done. Qed.

Lemma astype_str_strings v : (∀ c, c ∈ v → c ≠ NaN) → astype_str v = v.
Proof.
  induction v as [|c v IH]; intros H; [done |].
  change (astype_str (c :: v)) with (Str (cell_str c) :: astype_str v).
  rewrite IH by (intros; apply H; by right).
  destruct c; [done |]. by destruct (H NaN); [left |].
Qed.

Lemma has_qa_set_col name v df : has_qa (set_col name v df) = has_qa df.
Proof. unfold has_qa. by rewrite columns_set_col. Qed.

Lemma has_qa_columns df :
  has_qa df = true → "Question" ∈ columns df ∧ "Answer" ∈ columns df.
Proof.
  unfold has_qa. intros [H1 H2]%andb_true_iff.
  by apply bool_decide_eq_true in H1, H2.
Qed.

Lemma coerce_columns df : columns (coerce df) = columns df.
Proof. unfold coerce. by rewrite !columns_set_col. Qed.

Lemma coerce_question df :
  has_qa df = true → col "Question" (coerce df) = astype_str (col "Question" df).
Proof.
  intros [HQ HA]%has_qa_columns. unfold coerce.
  rewrite col_set_col_ne by done. by apply col_set_col_eq.
Qed.

Lemma coerce_answer df :
  has_qa df = true → col "Answer" (coerce df) = astype_str (col "Answer" df).
Proof.
  intros [HQ HA]%has_qa_columns. unfold coerce.
  rewrite col_set_col_eq by (by rewrite columns_set_col).
  by rewrite col_set_col_ne by done.
Qed.

Lemma coerce_other name df :
  name ≠ "Question" → name ≠ "Answer" → col name (coerce df) = col name df.
Proof. intros H1 H2. unfold coerce. by rewrite !col_set_col_ne by done. Qed.

Lemma coerce_fixed df :
  col "Question" df = astype_str (col "Question" df) →
  col "Answer" df = astype_str (col "Answer" df) →
  coerce df = df.
Proof.
  intros HQ HA. unfold coerce. rewrite <- HQ, set_col_same, <- HA.
  apply set_col_same.
Qed.

Lemma has_qa_coerce_if df : has_qa (coerce_if_qa df) = has_qa df.
Proof.
  unfold coerce_if_qa. destruct (has_qa df) eqn:E; [| done].
  unfold coerce. by rewrite !has_qa_set_col.
Qed.

Lemma coerce_if_idemp df : coerce_if_qa (coerce_if_qa df) = coerce_if_qa df.
Proof.
  unfold coerce_if_qa at 1. rewrite has_qa_coerce_if.
  destruct (has_qa df) eqn:E; [| done].
  unfold coerce_if_qa. rewrite E. apply coerce_fixed.
  - by rewrite coerce_question, astype_str_idemp.
  - by rewrite coerce_answer, astype_str_idemp.
Qed.

Lemma coerce_at_lookup h l0 l :
  coerce_at h l0 !! l =
  if decide (l = l0) then coerce_if_qa <$> h !! l else h !! l.
Proof.
  unfold coerce_at. destruct (h !! l0) as [df|] eqn:E.
  - destruct (decide (l = l0)) as [->|Hne].
    + rewrite list_lookup_insert_eq by (by eapply lookup_lt_Some). by rewrite E.
    + by rewrite list_lookup_insert_ne.
  - destruct (decide (l = l0)) as [->|Hne]; [by rewrite E | done].
Qed.

Lemma coerce_at_length h l : length (coerce_at h l) = length h.
Proof. unfold coerce_at. destruct (h !! l); [apply length_insert | done]. Qed.

(** after the loop, the tables named in the collection are coerced, once *)
Lemma foldl_coerce_at_lookup locs : ∀ h l,
  foldl coerce_at h locs !! l =
  if decide (l ∈ locs) then coerce_if_qa <$> h !! l else h !! l.
Proof.
  induction locs as [|l0 locs IH]; intros h l.
  - destruct (decide (l ∈ [])) as [[]%elem_of_nil|]; done.
  - change (foldl coerce_at h (l0 :: locs)) with (foldl coerce_at (coerce_at h l0) locs).
    rewrite IH, coerce_at_lookup.
    destruct (decide (l ∈ l0 :: locs)) as [Hin|Hin], (decide (l ∈ locs)) as [Hin'|Hin'],
      (decide (l = l0)) as [->|Hne]; try done.
    + destruct (h !! l0); simpl; [by rewrite coerce_if_idemp | done].
    + by apply elem_of_cons in Hin as [?|?].
    + destruct Hin. by right.
    + destruct Hin. by right.
    + destruct Hin. by left.
Qed.

Lemma foldl_coerce_at_length locs : ∀ h,
  length (foldl coerce_at h locs) = length h.
Proof.
  induction locs as [|l0 locs IH]; intros h; simpl; [done |].
  by rewrite IH, coerce_at_length.
Qed.

Section WithScorer.
Variable fuzz_score : string → string → Z.

(** the loop of [get_best_matches] over the tables, seen from the heap *)
Lemma get_best_matches_loop user_input data : ∀ matches w,
  (foldM (fuzzy_table fuzz_score user_input) data matches w).2 =
  World (foldl coerce_at (tables w) data.*2) (screen w) (entered w).
Proof.
  induction data as [|[file_name l] data IH]; intros matches w; simpl.
  - unfold ret. by destruct w.
  - rewrite bind_run, IH. clear IH. unfold fuzzy_table. rewrite bind_run.
    unfold read_table at 1 2. simpl.
    unfold coerce_at. destruct (tables w !! l) as [df|] eqn:E; simpl.
    + unfold coerce_if_qa. destruct (has_qa df) eqn:Hqa.
      * rewrite !bind_run. unfold write_table, read_table, ret. simpl.
        rewrite list_lookup_insert_eq by (by eapply lookup_lt_Some). simpl.
        by rewrite list_insert_insert_eq.
      * unfold ret. simpl. rewrite list_insert_id by done. by destruct w.
    + unfold ret. simpl. by destruct w.
Qed.

Lemma get_best_matches_tables user_input data top_n w :
  tables (get_best_matches fuzz_score user_input data top_n w).2 =
  foldl coerce_at (tables w) data.*2.
Proof.
  unfold get_best_matches. rewrite !bind_run. unfold ret at 1. simpl.
  by rewrite get_best_matches_loop.
Qed.

(** C2, amended.  The common-word stage leaves every table as it was.  The
    fuzzy stage keeps the number of tables, the columns of every table and
    every column other than Question and Answer; in a table of the
    collection that has both columns it replaces each Question and each
    Answer cell by its string form, so that a string stays and a missing
    cell becomes the string nan; it leaves every other table as it was, and
    so every table whose Question and Answer cells are all strings. *)
Theorem matcher_table_frame user_input data top_n w :
  let w1 := (find_common_word_matches user_input data w).2 in
  let w2 := (get_best_matches fuzz_score user_input data top_n w).2 in
  tables w1 = tables w ∧
  length (tables w2) = length (tables w) ∧
  (∀ v (i : nat),
     astype_str v !! i =
     (λ c, match c with Str s => Str s | NaN => Str "nan" end) <$> v !! i) ∧
  ∀ l df, tables w !! l = Some df →
    ∃ df', tables w2 !! l = Some df' ∧
      columns df' = columns df ∧
      (∀ name, name ≠ "Question" → name ≠ "Answer" →
         col name df' = col name df) ∧
      (l ∈ data.*2 → has_qa df = true →
         col "Question" df' = astype_str (col "Question" df) ∧
         col "Answer" df' = astype_str (col "Answer" df)) ∧
      (l ∉ data.*2 ∨ has_qa df = false → df' = df) ∧
      ((∀ c, c ∈ col "Question" df ++ col "Answer" df → c ≠ NaN) → df' = df).
Proof.
  intros w1 w2. subst w1 w2.
  rewrite find_common_word_matches_run, get_best_matches_tables. simpl.
  split; [done |]. split; [apply foldl_coerce_at_length |].
  split.
  { intros v i. unfold astype_str. rewrite list_lookup_fmap.
    by destruct (v !! i) as [[]|]. }
  intros l df Hl. rewrite foldl_coerce_at_lookup, Hl.
  assert ((∀ c, c ∈ col "Question" df ++ col "Answer" df → c ≠ NaN) →
          coerce df = df) as Hstr.
  { intros Hc. apply coerce_fixed; symmetry; apply astype_str_strings;
      intros c Hin; apply Hc, elem_of_app; auto. }
  destruct (decide (l ∈ data.*2)) as [Hin|Hin]; simpl.
  - unfold coerce_if_qa. destruct (has_qa df) eqn:Hqa.
    + exists (coerce df). split; [done |].
      split; [apply coerce_columns |].
      split; [intros; by apply coerce_other |].
      split; [intros; split; [by apply coerce_question | by apply coerce_answer] |].
      split; [by intros [?|?] | done].
    + exists df. repeat split; try done. 
      all: intros; congruence.
  - exists df. repeat split; try done.
Qed.

End WithScorer.
End TableFrame.

(** C2 as stated fails: the fuzzy stage writes the string nan into a table
    whose Question is missing. *)
Lemma matcher_read_only_counterexample :
  ¬ (∀ (fuzz_score : string → string → Z) user_input data top_n w,
       Matcher.tables
         (Matcher.get_best_matches fuzz_score user_input data top_n
            (Matcher.find_common_word_matches user_input data w).2).2 =
       Matcher.tables w).
Proof.
  intros H.
  specialize (H (λ _ _, 0%Z) "dbms" [("t.csv", 0)] 3%Z
                (Matcher.World [[("Question", [Matcher.NaN]);
                                 ("Answer", [Matcher.Str "a database system"])]] [] [])).
  vm_compute in H. discriminate H.
Qed.

(** ** The crawler: what a run does to the list of visited addresses *)

Section CrawlerTrace.
Import PyStr Crawler.

Lemma visits_app tr1 tr2 : visits (tr1 ++ tr2) = visits tr1 ++ visits tr2.
Proof. apply omap_app. Qed.

Lemma respects_app tr1 : ∀ vis tr2,
  respects vis (tr1 ++ tr2) ↔
  respects vis tr1 ∧ respects (vis ++ visits tr1) tr2.
Proof.
  induction tr1 as [|[u|u] tr1 IH]; intros vis tr2; simpl.
  - rewrite app_nil_r. tauto.
  - rewrite IH. change (visits (Get u :: tr1)) with (visits tr1). tauto.
  - rewrite IH. change (visits (Visited u :: tr1)) with (u :: visits tr1).
    by rewrite <- app_assoc.
Qed.

(** an address of the list is not requested later *)
Lemma respects_visited tr : ∀ vis u,
  respects vis tr → u ∈ vis → Get u ∉ tr.
Proof.
  induction tr as [|[v|v] tr IH]; intros vis u; simpl.
  - by intros _ _ ?%elem_of_nil.
  - intros [Hv Htr] Hu [[= ->]|Hin]%elem_of_cons; [done |].
    by apply (IH vis u).
  - intros Htr Hu [[=]|Hin]%elem_of_cons.
    apply (IH (vis ++ [v]) u); [done | | done].
    apply elem_of_app. by left.
Qed.

Lemma follows_refl P st : follows P st st.
Proof.
  exists []. rewrite !app_nil_r. split; [done |]. split; [done |].
  split; [done |]. by intros u ?%elem_of_nil.
Qed.

Lemma follows_trans P st1 st2 st3 :
  follows P st1 st2 → follows P st2 st3 → follows P st1 st3.
Proof.
  intros (n1 & Ht1 & Hv1 & Hr1 & Hp1) (n2 & Ht2 & Hv2 & Hr2 & Hp2).
  exists (n1 ++ n2). split; [by rewrite Ht2, Ht1, app_assoc |].
  split; [by rewrite Hv2, Hv1, visits_app, app_assoc |].
  split.
  - apply respects_app. split; [done | by rewrite <- Hv1].
  - intros u [?|?]%elem_of_app; auto.
Qed.

Lemma follows_weaken (P Q : string → Prop) st st' :
  (∀ u, P u → Q u) → follows P st st' → follows Q st st'.
Proof.
  intros HPQ (new & Ht & Hv & Hr & Hp). exists new. repeat split; auto.
Qed.

Lemma follows_visit P url st : follows P st (visit url st).
Proof.
  exists [Visited url]. split; [done |]. split; [done |].
  split; [done |]. intros u [[=]|[]%elem_of_nil]%elem_of_cons.
Qed.

Lemma follows_save_to_file P text st : follows P st (save_to_file text st).
Proof. apply (follows_refl P st). Qed.

Lemma follows_add_pdf_link P url st : follows P st (add_pdf_link url st).
Proof. apply (follows_refl P st). Qed.

Lemma follows_add_success_link P url st : follows P st (add_success_link url st).
Proof. apply (follows_refl P st). Qed.

Lemma follows_print P line st : follows P st (print line st).
Proof. apply (follows_refl P st). Qed.


Section WithWeb.
Variable web : nat → string → exn + response.

Lemma follows_requests_get (P : string → Prop) url st :
  url ∉ visited_links st → P url → follows P st (requests_get web url st).2.
Proof.
  intros Hnew HP. exists [Get url]. split; [done |].
  split; [by rewrite app_nil_r |]. split; [done |].
  by intros u [[= ->]|[]%elem_of_nil]%elem_of_cons.
Qed.

Lemma follows_extract_try url st :
  follows (λ u, u = url) st (extract_try web url st).1.
Proof.
  unfold extract_try.
  destruct (bool_decide (url ∉ visited_links st)) eqn:E;
    [apply bool_decide_eq_true in E | apply follows_refl].
  pose proof (follows_requests_get (λ u, u = url) url st E eq_refl) as Hget.
  unfold requests_get in *. simpl in *.
  destruct (web (requests_sent st) url) as [e|r]; simpl; [done |].
  destruct (content_type r) as [ct|]; simpl; [| done].
  destruct (contains "application/pdf" ct); simpl; [| done].
  destruct (pdf_pages r) as [pages|]; simpl; [| done].
  eapply follows_trans; [exact Hget |].
  eapply follows_trans; [apply follows_save_to_file |].
  eapply follows_trans; [apply follows_visit |].
  apply follows_add_pdf_link.
Qed.

Lemma follows_extract_text_from_pdf url st :
  follows (λ u, u = url) st (extract_text_from_pdf web url st).1.
Proof.
  unfold extract_text_from_pdf.
  pose proof (follows_extract_try url st) as H.
  destruct (extract_try web url st) as [st' [|e|]]; simpl in *; [done | | done].
  eapply follows_trans; [exact H | apply follows_visit].
Qed.

Lemma follows_follow_link rec link st :
  (∀ u s, follows in_domain s (rec u s).1) →
  follows in_domain st (follow_link web rec link st).1.
Proof.
  intros Hrec. unfold follow_link.
  destruct link as [href|]; [| apply follows_refl].
  destruct (contains "csvtu.ac.in" href) eqn:Hd; simpl; [| apply follows_refl].
  destruct (bool_decide (href ∉ visited_links st)); [| apply follows_refl].
  destruct (endswith (lower href) ".pdf"); [| apply Hrec].
  eapply follows_weaken; [| apply follows_extract_text_from_pdf].
  by intros u ->.
Qed.

Lemma follows_follow_links rec links :
  (∀ u s, follows in_domain s (rec u s).1) →
  ∀ st, follows in_domain st (follow_links web rec links st).1.
Proof.
  intros Hrec. induction links as [|link links IH]; intros st; simpl.
  - apply follows_refl.
  - pose proof (follows_follow_link rec link st Hrec) as H.
    destruct (follow_link web rec link st) as [st' [|e|]]; simpl in *; [| done | done].
    eapply follows_trans; [exact H | apply IH].
Qed.

Lemma follows_scrape_try rec url st :
  (∀ u s, follows in_domain s (rec u s).1) →
  url ∉ visited_links st → in_domain url →
  follows in_domain st (scrape_try web rec url st).1.
Proof.
  intros Hrec Hnew Hd. unfold scrape_try.
  pose proof (follows_requests_get in_domain url st Hnew Hd) as Hget.
  unfold requests_get in *. simpl in *.
  destruct (web (requests_sent st) url) as [e|r]; simpl; [done |].
  eapply follows_trans; [exact Hget |].
  eapply follows_trans; [| apply follows_follow_links, Hrec].
  eapply follows_trans; [| apply follows_visit].
  destruct (bool_decide (page_text r ≠ "")); [| apply follows_refl].
  eapply follows_trans; [apply follows_save_to_file | apply follows_add_success_link].
Qed.

Lemma follows_web_scraping_text fuel : ∀ url st,
  follows in_domain st (web_scraping_text web fuel url st).1.
Proof.
  induction fuel as [|fuel IH]; intros url st; simpl; [apply follows_refl |].
  destruct (bool_decide (url ∉ visited_links st)) eqn:Hnew; simpl;
    [apply bool_decide_eq_true in Hnew | apply follows_refl].
  destruct (contains "csvtu.ac.in" url) eqn:Hd; [| apply follows_refl].
  pose proof (follows_scrape_try (web_scraping_text web fuel) url st IH Hnew Hd) as H.
  destruct (scrape_try web (web_scraping_text web fuel) url st)
    as [st' [|[msg|msg|]|]]; simpl in *; try done.
  - eapply follows_trans; [exact H |].
    eapply follows_trans; [apply follows_visit | apply follows_print].
  - eapply follows_trans; [exact H |].
    eapply follows_trans; [apply follows_visit | apply follows_print].
Qed.

(** what [follows] says in plain terms *)
Lemma follows_plain P st st' :
  follows P st st' →
  ∃ new,
    trace st' = trace st ++ new ∧
    visited_links st' = visited_links st ++ visits new ∧
    (∀ u, u ∈ visited_links st → Get u ∉ new) ∧
    (∀ before after u, new = before ++ Visited u :: after → Get u ∉ after) ∧
    (∀ u, Get u ∈ new → P u).
Proof.
  intros (new & Ht & Hv & Hr & Hp). exists new.
  split; [done |]. split; [done |]. split; [| split; [| done]].
  - intros u Hu. by eapply respects_visited.
  - intros before after u ->.
    apply respects_app in Hr as [_ Hr]. simpl in Hr.
    eapply respects_visited; [exact Hr |].
    apply elem_of_app. right. by left.
Qed.

(** C6.  Idempotent visitation.  Along the log [new] of one run of the
    crawler, and of one call of the PDF extractor, an address that is in
    [visited_links] when the run starts is not requested, and an address is
    not requested after it has been appended to [visited_links]; the list
    grows by exactly the appends of the log. *)
Theorem visited_is_not_fetched_again fuel url st :
  (∃ new,
     trace (web_scraping_text web fuel url st).1 = trace st ++ new ∧
     visited_links (web_scraping_text web fuel url st).1 =
       visited_links st ++ visits new ∧
     (∀ u, u ∈ visited_links st → Get u ∉ new) ∧
     (∀ before after u, new = before ++ Visited u :: after → Get u ∉ after)) ∧
  (∃ new,
     trace (extract_text_from_pdf web url st).1 = trace st ++ new ∧
     visited_links (extract_text_from_pdf web url st).1 =
       visited_links st ++ visits new ∧
     (∀ u, u ∈ visited_links st → Get u ∉ new) ∧
     (∀ before after u, new = before ++ Visited u :: after → Get u ∉ after)).
Proof.
  split.
  - destruct (follows_plain _ _ _ (follows_web_scraping_text fuel url st))
      as (new & ? & ? & ? & ? & _).
    by exists new.
  - destruct (follows_plain _ _ _ (follows_extract_text_from_pdf url st))
      as (new & ? & ? & ? & ? & _).
    by exists new.
Qed.

(** C7.  Domain containment.  Along the log [new] of one run of the
    crawler no address without the marker csvtu.ac.in is requested,
    whether the request comes from the page crawler or from the PDF
    extractor. *)
Theorem crawl_stays_in_domain fuel url st :
  ∃ new,
    trace (web_scraping_text web fuel url st).1 = trace st ++ new ∧
    ∀ u, contains "csvtu.ac.in" u = false → Get u ∉ new.
Proof.
  destruct (follows_plain _ _ _ (follows_web_scraping_text fuel url st))
    as (new & Ht & _ & _ & _ & Hd).
  exists new. split; [done |]. intros u Hu Hin.
  apply Hd in Hin. unfold in_domain in Hin. congruence.
Qed.

End WithWeb.
End CrawlerTrace.

(** ** The crawler: exceptions and termination *)

Section CrawlerErrors.
Import PyStr Crawler.

Variable web : nat → string → exn + response.

(** the bare [except:] lets nothing through *)
Lemma extract_text_from_pdf_normal url st :
  (extract_text_from_pdf web url st).2 = Normal.
Proof.
  unfold extract_text_from_pdf.
  assert ((extract_try web url st).2 ≠ OutOfFuel) as H.
  { unfold extract_try. destruct (bool_decide _); [| done].
    unfold requests_get. destruct (web _ url) as [e|r]; simpl; [done |].
    destruct (content_type r) as [ct|]; [| done].
    destruct (contains _ ct); [| done].
    by destruct (pdf_pages r). }
  by destruct (extract_try web url st) as [st' [|e|]].
Qed.

Lemma extract_text_from_pdf_marks url st e :
  (extract_try web url st).2 = Raise e →
  url ∈ visited_links (extract_text_from_pdf web url st).1.
Proof.
  unfold extract_text_from_pdf.
  destruct (extract_try web url st) as [st' [|e'|]]; simpl; try done.
  intros _. apply elem_of_app. right. by left.
Qed.

(** a page request that raises a request exception *)
Lemma web_scraping_text_request_exception fuel url st e :
  url ∉ visited_links st → in_domain url →
  web (requests_sent st) url = inl e → e ≠ OtherException →
  (web_scraping_text web (S fuel) url st).2 = Normal ∧
  visited_links (web_scraping_text web (S fuel) url st).1 =
    visited_links st ++ [url] ∧
  corpus (web_scraping_text web (S fuel) url st).1 = corpus st.
Proof.
  intros Hnew Hd Hweb He. simpl.
  rewrite bool_decide_eq_true_2 by done. rewrite Hd. simpl.
  unfold scrape_try, requests_get. rewrite Hweb.
  by destruct e.
Qed.

Section PagesRaiseRequestExceptions.

(** only requests for PDF links raise anything but a request exception *)
Hypothesis pages_raise_request_exceptions :
  ∀ n u, web n u = inl OtherException → is_pdf_link u.

Lemma follow_link_no_raise rec link st e :
  (∀ u s e, ¬ is_pdf_link u → (rec u s).2 ≠ Raise e) →
  (follow_link web rec link st).2 ≠ Raise e.
Proof.
  intros Hrec. unfold follow_link. destruct link as [href|]; [| done].
  destruct (_ && _); [| done].
  destruct (endswith (lower href) ".pdf") eqn:E.
  - by rewrite extract_text_from_pdf_normal.
  - apply Hrec. unfold is_pdf_link. by rewrite E.
Qed.

Lemma follow_links_no_raise rec links e :
  (∀ u s e, ¬ is_pdf_link u → (rec u s).2 ≠ Raise e) →
  ∀ st, (follow_links web rec links st).2 ≠ Raise e.
Proof.
  intros Hrec. induction links as [|link links IH]; intros st; simpl; [done |].
  pose proof (follow_link_no_raise rec link st e Hrec) as H.
  destruct (follow_link web rec link st) as [st' [|e'|]]; simpl in *;
    [apply IH | | done].
  intros [= ->]. by apply (follow_link_no_raise rec link st e Hrec).
Qed.

Lemma web_scraping_text_no_raise fuel : ∀ url st e,
  ¬ is_pdf_link url → (web_scraping_text web fuel url st).2 ≠ Raise e.
Proof.
  induction fuel as [|fuel IH]; intros url st e Hpage; simpl; [done |].
  destruct (_ && _); [| done].
  unfold scrape_try, requests_get.
  destruct (web (requests_sent st) url) as [e'|r] eqn:Hweb; simpl.
  - destruct e' as [msg|msg|]; [done | done |].
    by apply pages_raise_request_exceptions in Hweb.
  - match goal with |- context [follow_links web ?rec ?links ?s] =>
      assert (∀ e, (follow_links web rec links s).2 ≠ Raise e) as Hloop
        by (intros e0; by apply follow_links_no_raise);
      destruct (follow_links web rec links s) as [st' [|e'|]]
    end; simpl in *; [done | | done].
    by destruct (Hloop e').
Qed.

End PagesRaiseRequestExceptions.

Section FiniteSite.

(** the addresses of the site: every link of the domain found on a page
    is one of them *)
Variable site : list string.

Hypothesis links_in_site :
  ∀ n u r href, web n u = inr r → Some href ∈ hrefs r → in_domain href →
    href ∈ site.

Lemma remaining_le st st' :
  (∀ u, u ∈ visited_links st → u ∈ visited_links st') →
  remaining site st' ≤ remaining site st.
Proof.
  intros H. unfold remaining. apply subseteq_size. intros u.
  rewrite !elem_of_difference, !elem_of_list_to_set. intros [Hu Hn].
  split; [done |]. intros Hv. by apply Hn, H.
Qed.

Lemma remaining_lt url st st' :
  url ∈ site → url ∉ visited_links st → url ∈ visited_links st' →
  (∀ u, u ∈ visited_links st → u ∈ visited_links st') →
  remaining site st' < remaining site st.
Proof.
  intros Hs Hnew Hin H. unfold remaining. apply subset_size. split.
  - intros u. rewrite !elem_of_difference, !elem_of_list_to_set.
    intros [Hu Hn]. split; [done |]. intros Hv. by apply Hn, H.
  - intros Hsub. specialize (Hsub url).
    rewrite !elem_of_difference, !elem_of_list_to_set in Hsub.
    by destruct Hsub.
Qed.

Lemma follows_visited P st st' u :
  follows P st st' → u ∈ visited_links st → u ∈ visited_links st'.
Proof. intros (new & _ & -> & _) Hu. apply elem_of_app. by left. Qed.

Lemma follow_links_terminates fuel links :
  (∀ url st, url ∈ site → remaining site st < fuel →
     (web_scraping_text web fuel url st).2 ≠ OutOfFuel) →
  (∀ href, Some href ∈ links → in_domain href → href ∈ site) →
  ∀ st, remaining site st < fuel →
    (follow_links web (web_scraping_text web fuel) links st).2 ≠ OutOfFuel.
Proof.
  intros Hrec. induction links as [|link links IH]; intros Hlinks st Hst; simpl;
    [done |].
  pose proof (follows_follow_link web (web_scraping_text web fuel) link st
                (follows_web_scraping_text web fuel)) as Hf.
  assert ((follow_link web (web_scraping_text web fuel) link st).2 ≠ OutOfFuel) as Ho.
  { unfold follow_link. destruct link as [href|]; [| done].
    destruct (contains "csvtu.ac.in" href) eqn:Hd; simpl; [| done].
    destruct (bool_decide _); [| done].
    destruct (endswith _ _).
    - by rewrite extract_text_from_pdf_normal.
    - apply Hrec; [| done]. apply Hlinks; [by left | done]. }
  destruct (follow_link web (web_scraping_text web fuel) link st)
    as [st' [|e|]]; simpl in *; [| done | done].
  apply IH.
  - intros href Hin. apply Hlinks. by right.
  - eapply Nat.le_lt_trans; [| exact Hst].
    apply remaining_le. intros u. by apply (follows_visited _ _ _ _ Hf).
Qed.

(** a run needs no deeper recursion than the number of addresses of the
    site that are left to visit *)
Lemma web_scraping_text_terminates fuel : ∀ url st,
  url ∈ site → remaining site st < fuel →
  (web_scraping_text web fuel url st).2 ≠ OutOfFuel.
Proof.
  induction fuel as [|fuel IH]; intros url st Hs Hst; [lia |]. simpl.
  destruct (bool_decide (url ∉ visited_links st)) eqn:Hnew; simpl;
    [apply bool_decide_eq_true in Hnew | done].
  destruct (contains "csvtu.ac.in" url) eqn:Hd; [| done].
  unfold scrape_try, requests_get.
  destruct (web (requests_sent st) url) as [e|r] eqn:Hweb; simpl.
  - by destruct e.
  - match goal with |- context [follow_links web ?rec ?links ?s] =>
      assert ((follow_links web rec links s).2 ≠ OutOfFuel) as Hloop;
      [| destruct (follow_links web rec links s) as [st' [|[msg|msg|]|]]; by simpl in *]
    end.
    apply follow_links_terminates; [exact IH | |].
    + intros href Hin Hdh. by eapply links_in_site.
    + assert (∀ s, visited_links s = visited_links st →
                remaining site (visit url s) < remaining site st) as Hv.
      { intros s Hs'. apply (remaining_lt url); [done | done | |].
        - simpl. apply elem_of_app. right. by left.
        - intros u Hu. simpl. rewrite Hs'. apply elem_of_app. by left. }
      destruct (bool_decide (page_text r ≠ ""));
        (eapply Nat.lt_le_trans; [apply Hv; done | lia]).
Qed.

End FiniteSite.
End CrawlerErrors.

(** C8.  Failure semantics of the crawler.
    (1) The PDF extractor never raises, and when anything was raised inside
        it the address is in [visited_links] afterwards.
    (2) A page request that raises [ConnectTimeout] or another
        [RequestException] ends normally with the address appended to
        [visited_links] and nothing added to the corpus.
    (3) After a link that ended normally the loop goes on with the links
        that remain.
    (4) If only requests for PDF links raise anything else, no run of the
        crawler from a page address raises; and on a site of finitely many
        addresses a run with enough fuel ends normally. *)
Theorem crawl_swallows_errors (web : nat → string → Crawler.exn + Crawler.response) :
  (∀ url st,
     (Crawler.extract_text_from_pdf web url st).2 = Crawler.Normal ∧
     ∀ e, (Crawler.extract_try web url st).2 = Crawler.Raise e →
          url ∈ Crawler.visited_links (Crawler.extract_text_from_pdf web url st).1) ∧
  (∀ fuel url st e,
     url ∉ Crawler.visited_links st → in_domain url →
     web (Crawler.requests_sent st) url = inl e → e ≠ Crawler.OtherException →
     (Crawler.web_scraping_text web (S fuel) url st).2 = Crawler.Normal ∧
     Crawler.visited_links (Crawler.web_scraping_text web (S fuel) url st).1 =
       Crawler.visited_links st ++ [url] ∧
     Crawler.corpus (Crawler.web_scraping_text web (S fuel) url st).1 =
       Crawler.corpus st) ∧
  (∀ rec link links st,
     (Crawler.follow_link web rec link st).2 = Crawler.Normal →
     Crawler.follow_links web rec (link :: links) st =
     Crawler.follow_links web rec links (Crawler.follow_link web rec link st).1) ∧
  ((∀ n u, web n u = inl Crawler.OtherException → is_pdf_link u) →
   ∀ fuel url st, ¬ is_pdf_link url →
     (∀ e, (Crawler.web_scraping_text web fuel url st).2 ≠ Crawler.Raise e) ∧
     (∀ site,
        (∀ n u r href, web n u = inr r → Some href ∈ Crawler.hrefs r →
                       in_domain href → href ∈ site) →
        url ∈ site → remaining site st < fuel →
        (Crawler.web_scraping_text web fuel url st).2 = Crawler.Normal)).
Proof.
  split; [| split; [| split]].
  - intros url st. split; [apply extract_text_from_pdf_normal |].
    intros e. apply extract_text_from_pdf_marks.
  - intros fuel url st e. apply web_scraping_text_request_exception.
  - intros rec link links st Ho. simpl.
    by destruct (Crawler.follow_link web rec link st) as [st' []]; simpl in *.
  - intros Hweb fuel url st Hpage.
    pose proof (web_scraping_text_no_raise web Hweb fuel url st) as Hno.
    split; [intros e; by apply Hno |].
    intros site Hsite Hin Hfuel.
    pose proof (web_scraping_text_terminates web site Hsite fuel url st Hin Hfuel) as Hend.
    destruct (Crawler.web_scraping_text web fuel url st) as [st' [|e|]]; simpl in *;
      [done | by destruct (Hno e) | done].
Qed.

(** C8 on the small site: the run from the home page ends normally. *)
Lemma crawl_swallows_errors_witness :
  (Crawler.web_scraping_text small_site 6 "https://csvtu.ac.in/ew/" Crawler.initial).2
  = Crawler.Normal.
Proof.
  destruct (crawl_swallows_errors small_site) as (_ & _ & _ & Hrun).
  refine (proj2 (Hrun _ 6 "https://csvtu.ac.in/ew/" Crawler.initial _)
          ["https://csvtu.ac.in/ew/"; "https://csvtu.ac.in/a";
           "https://csvtu.ac.in/f.PDF"; "https://csvtu.ac.in/b";
           "https://csvtu.ac.in/g.pdf"] _ _ _).
  - intros n u. unfold small_site. by repeat case_decide.
  - by vm_compute.
  - intros n u r href. unfold small_site.
    repeat case_decide; intros [= <-]; simpl; intros Hin Hd;
      repeat (apply elem_of_cons in Hin as [Hin|Hin];
              [first [discriminate Hin
                     | injection Hin as ->;
                       first [by vm_compute in Hd
                             | rewrite !elem_of_cons; auto 10] ] |]);
      by apply elem_of_nil in Hin.
  - by left.
  - vm_compute. lia.
Defined.

(** ** The PDF extractor on content that is no PDF *)

(** When the answer declares another content type and nothing raises, the
    extractor only sends the request: the address is not appended to
    [visited_links], nothing is written, nothing is raised. *)
Lemma extract_text_from_pdf_other_content web url st r ct :
  url ∉ Crawler.visited_links st →
  web (Crawler.requests_sent st) url = inr r →
  Crawler.content_type r = Some ct →
  PyStr.contains "application/pdf" ct = false →
  Crawler.extract_text_from_pdf web url st =
  (Crawler.State (Crawler.visited_links st) (Crawler.pdf_links st)
     (Crawler.success_links st) (Crawler.corpus st) (Crawler.stdout st)
     (Crawler.trace st ++ [Crawler.Get url]),
   Crawler.Normal).
Proof.
  intros Hnew Hweb Hct Hpdf.
  unfold Crawler.extract_text_from_pdf, Crawler.extract_try.
  rewrite bool_decide_eq_true_2 by done.
  unfold Crawler.requests_get. by rewrite Hweb, Hct, Hpdf.
Qed.

(** C1 at a PDF link answered with content type text/html: nothing is
    appended to the corpus and nothing is raised, but the address is not
    marked visited; in a crawl of a page that links it twice it is
    requested twice. *)
Theorem non_pdf_content_is_not_marked_visited :
  let url := "https://csvtu.ac.in/notice.pdf" in
  let html := Crawler.Response (Some "text/html") "moved" [] None in
  let r := Crawler.extract_text_from_pdf (λ _ _, inr html) url Crawler.initial in
  let home := Crawler.Response (Some "text/html") "home" [Some url; Some url] None in
  let site := λ (_ : nat) u, if decide (u = url) then inr html else inr home in
  let crawl := Crawler.web_scraping_text site 3 "https://csvtu.ac.in/ew/" Crawler.initial in
  r.2 = Crawler.Normal ∧
  Crawler.corpus r.1 = "" ∧
  Crawler.trace r.1 = [Crawler.Get url] ∧
  (url ∉ Crawler.visited_links r.1) ∧
  crawl.2 = Crawler.Normal ∧
  Crawler.visited_links crawl.1 = ["https://csvtu.ac.in/ew/"] ∧
  Crawler.trace crawl.1 =
    [Crawler.Get "https://csvtu.ac.in/ew/"; Crawler.Visited "https://csvtu.ac.in/ew/";
     Crawler.Get url; Crawler.Get url].
Proof.
  intros url html r home site crawl.
  assert (r = (Crawler.State [] [] [] "" [] [Crawler.Get url], Crawler.Normal)) as ->
    by (by apply extract_text_from_pdf_other_content with (r := html) (ct := "text/html");
          [intros ?%elem_of_nil | | |]).
  repeat split; try done.
  simpl. by intros ?%elem_of_nil.
Qed.

(** ** The fuzzy stage: what it collects *)

Section FuzzyRun.
Import PyStr Matcher.

Variable fuzz_score : string → string → Z.

Lemma fuzzy_rows_fold user_input file_name df : ∀ matches,
  fold_left
    (λ matches question,
       matches ++
       [(file_name, question, fuzz_score user_input (cell_str question),
         first_answer question (qa_rows df))])
    (col "Question" df) matches =
  matches ++ fuzzy_rows fuzz_score user_input file_name df.
Proof.
  unfold fuzzy_rows. induction (col "Question" df) as [|q qs IH];
    intros matches; simpl.
  - by rewrite app_nil_r.
  - rewrite IH. by rewrite <- app_assoc.
Qed.

Lemma coerce_idemp df : has_qa df = true → coerce (coerce df) = coerce df.
Proof.
  intros Hqa. pose proof (coerce_if_idemp df) as H.
  unfold coerce_if_qa in H. rewrite Hqa in H.
  assert (has_qa (coerce df) = true) as Hqa'.
  { pose proof (has_qa_coerce_if df) as H'. unfold coerce_if_qa in H'.
    by rewrite Hqa in H'. }
  by rewrite Hqa' in H.
Qed.

Lemma fuzzy_in_order_coerce_at user_input data h l :
  fuzzy_in_order fuzz_score user_input data (coerce_at h l) =
  fuzzy_in_order fuzz_score user_input data h.
Proof.
  unfold fuzzy_in_order. induction data as [|[file_name l'] data IH]; [done |].
  simpl. rewrite IH. f_equal.
  rewrite coerce_at_lookup. destruct (decide (l' = l)) as [->|]; [| done].
  destruct (h !! l) as [df|]; simpl; [| done].
  rewrite has_qa_coerce_if. unfold coerce_if_qa.
  destruct (has_qa df) eqn:Hqa; [| done]. by rewrite coerce_idemp.
Qed.

Lemma fuzzy_table_run user_input matches file_name l w :
  fuzzy_table fuzz_score user_input matches (file_name, l) w =
  (matches ++ fuzzy_in_order fuzz_score user_input [(file_name, l)] (tables w),
   World (coerce_at (tables w) l) (screen w) (entered w)).
Proof.
  unfold fuzzy_table, fuzzy_in_order. simpl. rewrite app_nil_r.
  rewrite bind_run. unfold read_table at 1 2. simpl.
  unfold coerce_at. destruct (tables w !! l) as [df|] eqn:E; simpl.
  - unfold coerce_if_qa. destruct (has_qa df) eqn:Hqa.
    + rewrite !bind_run. unfold write_table, read_table, ret. simpl.
      rewrite !list_lookup_insert_eq
        by (rewrite ?length_insert; by eapply lookup_lt_Some).
      simpl. rewrite list_insert_insert_eq. by rewrite fuzzy_rows_fold.
    + unfold ret. rewrite app_nil_r, list_insert_id by done. by destruct w.
  - unfold ret. simpl. rewrite app_nil_r. by destruct w.
Qed.

Lemma fuzzy_loop_run user_input data : ∀ matches w,
  foldM (fuzzy_table fuzz_score user_input) data matches w =
  (matches ++ fuzzy_in_order fuzz_score user_input data (tables w),
   World (foldl coerce_at (tables w) data.*2) (screen w) (entered w)).
Proof.
  induction data as [|[file_name l] data IH]; intros matches w.
  - simpl. unfold ret. rewrite app_nil_r. by destruct w.
  - cbn [foldM]. rewrite bind_run, fuzzy_table_run. cbn [fst snd].
    rewrite IH. cbn [tables screen entered].
    rewrite fuzzy_in_order_coerce_at. unfold fuzzy_in_order. simpl.
    by rewrite app_nil_r, <- app_assoc.
Qed.

(** the stage as a whole *)
Lemma get_best_matches_run user_input data top_n w :
  get_best_matches fuzz_score user_input data top_n w =
  (slice_to top_n
     (sorted_desc (fuzzy_in_order fuzz_score user_input data (tables w))),
   World (foldl coerce_at (tables w) data.*2) (screen w)
         (entered w ++ [FuzzyStage])).
Proof.
  unfold get_best_matches. rewrite bind_run. unfold enter. cbn [fst snd].
  rewrite bind_run, fuzzy_loop_run. by unfold ret.
Qed.


Lemma insert_desc_perm x l : insert_desc x l ≡ₚ x :: l.
Proof.
  induction l as [|y l IH]; simpl; [done |].
  destruct (score_of y <=? score_of x)%Z; [done |].
  rewrite IH. apply perm_swap.
Qed.

Lemma sorted_desc_perm l : sorted_desc l ≡ₚ l.
Proof.
  induction l as [|x l IH]; simpl; [done |].
  by rewrite insert_desc_perm, IH.
Qed.

(** equal scores keep the order in which they came *)
Lemma insert_desc_stable s x l :
  filter (λ c, score_of c = s) (insert_desc x l) =
  filter (λ c, score_of c = s) (x :: l).
Proof.
  induction l as [|y l IH]; simpl; [done |].
  destruct (score_of y <=? score_of x)%Z eqn:E; [done |].
  apply Z.leb_gt in E.
  rewrite (filter_cons _ y), IH, !(filter_cons _ x), (filter_cons _ y).
  repeat case_decide; try done. lia.
Qed.

Lemma sorted_desc_stable s l :
  filter (λ c, score_of c = s) (sorted_desc l) = filter (λ c, score_of c = s) l.
Proof.
  induction l as [|x l IH]; simpl; [done |].
  rewrite insert_desc_stable, !filter_cons, IH. done.
Qed.

Lemma fuzzy_rows_length user_input file_name df :
  length (fuzzy_rows fuzz_score user_input file_name df) =
  length (col "Question" df).
Proof. unfold fuzzy_rows. apply length_fmap. Qed.

Lemma fuzzy_in_order_length user_input data tbls :
  length (fuzzy_in_order fuzz_score user_input data tbls) =
  fuzzy_row_count data tbls.
Proof.
  unfold fuzzy_in_order, fuzzy_row_count.
  induction data as [|[file_name l] data IH]; simpl; [done |].
  rewrite length_app, IH. f_equal.
  destruct (has_qa (default [] (tbls !! l))) eqn:Hqa; [| done].
  rewrite fuzzy_rows_length, coerce_question by done.
  unfold astype_str. apply length_fmap.
Qed.


(** X2.  The fuzzy stage returns the candidates of highest score: what it
    returns and what it drops are together a rearrangement of the
    candidates of all rows, nothing dropped has a higher score than
    anything returned, and candidates of equal score stay in the order of
    the tables and rows. *)
Theorem fuzzy_stage_selects_top user_input data top_n w :
  let all := fuzzy_in_order fuzz_score user_input data (tables w) in
  let result := (get_best_matches fuzz_score user_input data top_n w).1 in
  ∃ dropped,
    result ++ dropped ≡ₚ all ∧
    (∀ c d, c ∈ result → d ∈ dropped → (score_of d ≤ score_of c)%Z) ∧
    (∀ s, filter (λ c, score_of c = s) (result ++ dropped) =
          filter (λ c, score_of c = s) all).
Proof.
  intros all result. subst result. rewrite get_best_matches_run. cbn [fst].
  fold all. destruct (slice_to_take top_n (sorted_desc all)) as [k ->].
  exists (drop k (sorted_desc all)). rewrite take_drop.
  split; [apply sorted_desc_perm |]. split; [| intros s; apply sorted_desc_stable].
  intros c d Hc Hd.
  pose proof (sorted_desc_sorted all) as Hs.
  rewrite <- (take_drop k (sorted_desc all)) in Hs.
  apply StronglySorted_app in Hs as (Hs & _ & _). by apply (Hs c d).
Qed.


Lemma foldl_coerce_at_idemp locs h :
  foldl coerce_at (foldl coerce_at h locs) locs = foldl coerce_at h locs.
Proof.
  apply list_eq. intros i. rewrite !foldl_coerce_at_lookup.
  destruct (decide (i ∈ locs)); [| done].
  destruct (h !! i); simpl; [by rewrite coerce_if_idemp | done].
Qed.

Lemma fuzzy_in_order_foldl user_input data locs : ∀ h,
  fuzzy_in_order fuzz_score user_input data (foldl coerce_at h locs) =
  fuzzy_in_order fuzz_score user_input data h.
Proof.
  induction locs as [|l locs IH]; intros h; simpl; [done |].
  by rewrite IH, fuzzy_in_order_coerce_at.
Qed.

(** X3.  After one run of the fuzzy stage over a collection, a later run
    over the same collection, for any query and any [top_n], returns what
    it would have returned without the first run and leaves the tables as
    the first run left them. *)
Theorem fuzzy_stage_settles user_input data top_n user_input' top_n' w :
  let w1 := (get_best_matches fuzz_score user_input data top_n w).2 in
  (get_best_matches fuzz_score user_input' data top_n' w1).1 =
  (get_best_matches fuzz_score user_input' data top_n' w).1 ∧
  tables (get_best_matches fuzz_score user_input' data top_n' w1).2 = tables w1.
Proof.
  intros w1. subst w1. rewrite !get_best_matches_run. cbn [fst snd tables].
  by rewrite fuzzy_in_order_foldl, foldl_coerce_at_idemp.
Qed.

(** the row that [first_answer] reads *)
Lemma first_answer_first question rows :
  question ∈ rows.*1 →
  ∃ i a,
    rows !! i = Some (question, a) ∧
    (∀ j q' a', j < i → rows !! j = Some (q', a') → q' ≠ question) ∧
    first_answer question rows = a.
Proof.
  induction rows as [|[q a] rows IH]; [by intros ?%elem_of_nil |].
  intros Hin. simpl. destruct (decide (q = question)) as [->|Hne].
  - exists 0, a. split; [done |]. split; [intros; lia | done].
  - apply elem_of_cons in Hin as [Heq|Hin]; [by destruct Hne |].
    destruct (IH Hin) as (i & a' & Hi & Hfirst & Ha).
    exists (S i), a'. split; [done |]. split; [| done].
    intros [|j] q' a'' Hj Hl; simpl in Hl.
    + by injection Hl as <- <-.
    + apply (Hfirst j q' a''); [lia | done].
Qed.

Lemma qa_rows_coerce df :
  has_qa df = true →
  qa_rows (coerce df) =
  (λ row, (Str (cell_str row.1), Str (cell_str row.2))) <$> qa_rows df.
Proof.
  intros Hqa. unfold qa_rows. rewrite coerce_question, coerce_answer by done.
  unfold astype_str.
  generalize (col "Answer" df). induction (col "Question" df) as [|q qs IH];
    intros [|a answers]; simpl; try done.
  by rewrite IH.
Qed.

Lemma coerced_rows_questions df :
  length (col "Question" df) = length (col "Answer" df) →
  ((λ row : cell * cell, (Str (cell_str row.1), Str (cell_str row.2)))
     <$> qa_rows df).*1 =
  astype_str (col "Question" df).
Proof.
  unfold qa_rows, astype_str. generalize (col "Answer" df).
  induction (col "Question" df) as [|q qs IH]; intros [|a answers] Hlen;
    simpl in *; try done.
  f_equal. apply IH. lia.
Qed.

Lemma elem_of_fuzzy_in_order user_input data tbls c :
  c ∈ fuzzy_in_order fuzz_score user_input data tbls ↔
  ∃ file_name l,
    (file_name, l) ∈ data ∧ has_qa (default [] (tbls !! l)) = true ∧
    c ∈ fuzzy_rows fuzz_score user_input file_name
          (coerce (default [] (tbls !! l))).
Proof.
  unfold fuzzy_in_order. rewrite list_elem_of_In, in_flat_map. split.
  - intros ([file_name l] & Hin%list_elem_of_In & Hc).
    destruct (has_qa _) eqn:E; [| done].
    exists file_name, l. by rewrite <- list_elem_of_In in Hc.
  - intros (file_name & l & Hin & E & Hc).
    exists (file_name, l). split; [by apply list_elem_of_In |].
    rewrite E. by apply list_elem_of_In.
Qed.

Lemma elem_of_slice_to {A} (n : Z) (l : list A) x : x ∈ slice_to n l → x ∈ l.
Proof.
  destruct (slice_to_take n l) as [k ->]. intros Hx.
  rewrite <- (take_drop k l). apply elem_of_app. by left.
Qed.

(** X4.  Every candidate that the fuzzy stage returns comes from a row of
    a table of the collection that has both columns: it carries the string
    of the Question of that row, the score of that string, and the string
    of the Answer of the first row of the table whose Question has the
    same string.  The tables are taken with as many Answer cells as
    Question cells. *)
Theorem fuzzy_candidates_come_from_rows user_input data top_n w c :
  (∀ file_name l df, (file_name, l) ∈ data → tables w !! l = Some df →
     length (col "Question" df) = length (col "Answer" df)) →
  c ∈ (get_best_matches fuzz_score user_input data top_n w).1 →
  ∃ file_name l df i question answer,
    (file_name, l) ∈ data ∧ tables w !! l = Some df ∧ has_qa df = true ∧
    qa_rows df !! i = Some (question, answer) ∧
    (∀ j q' a', j < i → qa_rows df !! j = Some (q', a') →
       cell_str q' ≠ cell_str question) ∧
    c = (file_name, Str (cell_str question),
         fuzz_score user_input (cell_str question), Str (cell_str answer)).
Proof.
  intros Hwf. rewrite get_best_matches_run. cbn [fst].
  intros Hc%elem_of_slice_to. rewrite sorted_desc_perm in Hc.
  apply elem_of_fuzzy_in_order in Hc as (file_name & l & Hin & Hqa & Hc).
  destruct (tables w !! l) as [df|] eqn:Hl; simpl in *; [| done].
  unfold fuzzy_rows in Hc. apply list_elem_of_fmap in Hc as (q0 & -> & Hq0).
  rewrite qa_rows_coerce by done.
  destruct (first_answer_first q0
              ((λ row, (Str (cell_str row.1), Str (cell_str row.2))) <$> qa_rows df))
    as (i & a' & Hi & Hfirst & ->).
  { rewrite coerced_rows_questions by (by rewrite (Hwf file_name l df)).
    by rewrite coerce_question in Hq0. }
  rewrite list_lookup_fmap in Hi.
  destruct (qa_rows df !! i) as [[question answer]|] eqn:Hrow; simpl in Hi; [| done].
  injection Hi as <- <-.
  exists file_name, l, df, i, question, answer.
  repeat split; try done.
  intros j q' a'' Hj Hrow' Heq.
  apply (Hfirst j (Str (cell_str q')) (Str (cell_str a''))); [done | | by rewrite Heq].
  by rewrite list_lookup_fmap, Hrow'.
Qed.

End FuzzyRun.

(** X4 on a table with the same Question in two rows. *)
Lemma fuzzy_candidates_come_from_rows_witness :
  let w := Matcher.World
             [[("Question", [Matcher.Str "q"; Matcher.Str "q"]);
               ("Answer", [Matcher.Str "first"; Matcher.Str "second"])]] [] [] in
  ∃ file_name l df i question answer,
    (file_name, l) ∈ [("t.csv", 0)] ∧ Matcher.tables w !! l = Some df ∧
    Matcher.has_qa df = true ∧
    Matcher.qa_rows df !! i = Some (question, answer) ∧
    (∀ j q' a', j < i → Matcher.qa_rows df !! j = Some (q', a') →
       Matcher.cell_str q' ≠ Matcher.cell_str question) ∧
    ("t.csv", Matcher.Str "q", 0%Z, Matcher.Str "first") =
    (file_name, Matcher.Str (Matcher.cell_str question), 0%Z,
     Matcher.Str (Matcher.cell_str answer)).
Proof.
  intros w.
  apply (fuzzy_candidates_come_from_rows (λ _ _, 0%Z) "x" [("t.csv", 0)] 3 w).
  - intros file_name l df [[= -> ->]|[]%elem_of_nil]%elem_of_cons [= <-].
    reflexivity.
  - assert ((Matcher.get_best_matches (λ _ _, 0%Z) "x" [("t.csv", 0)] 3 w).1 =
            [("t.csv", Matcher.Str "q", 0%Z, Matcher.Str "first");
             ("t.csv", Matcher.Str "q", 0%Z, Matcher.Str "first")]) as ->
      by reflexivity.
    by left.
Defined.

(** ** [display_response], branch by branch *)

Section DisplayRun.
Import PyStr Matcher.

Variable fuzz_score : string → string → Z.
Variable read_csv : string → option DataFrame.

Lemma show_scored_widget c w : show_scored c w = show (scored_widget c) w.
Proof.
  destruct c as [[[file_name question] score] answer]. simpl.
  by repeat destruct (_ <=? _)%Z.
Qed.

Lemma display_response_run user_input data university_file_path w :
  display_response fuzz_score read_csv user_input data university_file_path w =
  display_result fuzz_score read_csv user_input data university_file_path w.
Proof.
  unfold display_response, display_result.
  rewrite check_for_syllabus_nil. simpl.
  destruct (decide (user_input = "")) as [->|Hne]; [done |].
  rewrite (bool_decide_eq_false_2 (user_input = "")) by done. simpl.
  set (filtered_data := filter _ data).
  rewrite bind_run, find_common_word_matches_run. cbn [fst snd].
  destruct (decide (matches_in_order user_input filtered_data (tables w) ≠ []))
    as [Hex|Hex].
  - rewrite bool_decide_eq_false_2 by done. simpl.
    rewrite bind_run. unfold show. cbn [fst snd].
    rewrite bind_run.
    rewrite (for_each_show _ exact_widget) by apply show_exact_widget.
    unfold ret. simpl. by rewrite <- app_assoc.
  - apply dec_stable in Hex. rewrite Hex. simpl. rewrite bind_run. unfold show. cbn [fst snd].
    rewrite bind_run, get_best_matches_run. cbn [fst snd tables screen entered].
    fold (fuzzy_top fuzz_score user_input filtered_data 3 (tables w)).
    set (fuzzy := fuzzy_top _ _ _ _ _).
    set (tbls := foldl coerce_at (tables w) filtered_data.*2).
    destruct (decide (fuzzy ≠ [])) as [Hfz|Hfz].
    + rewrite bool_decide_eq_false_2 by done. simpl.
      rewrite bind_run.
      rewrite (for_each_show _ scored_widget) by apply show_scored_widget.
      unfold ret. simpl. by rewrite <- !app_assoc.
    + apply dec_stable in Hfz. rewrite Hfz. simpl.
      destruct (read_csv university_file_path) as [csv|];
        [| by rewrite <- !app_assoc].
      rewrite bind_run. unfold new_table. cbn [fst snd tables screen entered].
      rewrite bind_run. unfold read_table at 1 2. cbn [fst snd tables].
      assert (∀ df, (tbls ++ [df]) !! length tbls = Some df) as Hlast
        by (intros; by apply list_lookup_middle).
      assert (∀ df df', <[length tbls := df']> (tbls ++ [df]) = tbls ++ [df']) as Hset.
      { intros. rewrite insert_app_r_alt by done. by rewrite Nat.sub_diag. }
      rewrite Hlast. simpl.
      destruct (has_qa csv) eqn:Hqa; [| unfold ret; by rewrite <- !app_assoc].
      rewrite !bind_run. unfold write_table, read_table.
      cbn [fst snd tables screen entered].
      rewrite get_best_matches_run. cbn [fst snd tables screen entered].
      repeat (first [rewrite Hlast | rewrite Hset]; cbn [default from_option id]).
      fold (coerce csv).
      assert (has_qa (coerce csv) = true) as Hqa'.
      { pose proof (has_qa_coerce_if csv) as H'. unfold coerce_if_qa in H'.
        by rewrite Hqa in H'. }
      assert (fuzzy_in_order fuzz_score user_input
                [("University", length tbls)] (tbls ++ [coerce csv])
              = fuzzy_rows fuzz_score user_input "University" (coerce csv)) as ->.
      { unfold fuzzy_in_order. simpl. rewrite Hlast. simpl.
        by rewrite Hqa', app_nil_r, coerce_idemp. }
      assert (foldl coerce_at (tbls ++ [coerce csv]) [("University", length tbls)].*2
              = tbls ++ [coerce csv]) as ->.
      { simpl. unfold coerce_at. rewrite Hlast, Hset. unfold coerce_if_qa.
        by rewrite Hqa', coerce_idemp. }
      set (last := slice_to 3 _).
      destruct (decide (last ≠ [])) as [Hl|Hl].
      * rewrite bool_decide_eq_false_2 by done. simpl.
        rewrite bind_run.
        rewrite (for_each_show _ scored_widget) by apply show_scored_widget.
        unfold ret. simpl. by rewrite <- !app_assoc.
      * apply dec_stable in Hl. rewrite Hl. simpl.
        rewrite bind_run. unfold show, ret. simpl. by rewrite <- !app_assoc.
Qed.

Lemma fuzzy_top_length user_input data tbls :
  length (fuzzy_top fuzz_score user_input data 3 tbls) =
  3 `min` fuzzy_row_count data tbls.
Proof.
  unfold fuzzy_top, slice_to. simpl. rewrite length_take.
  by rewrite sorted_desc_perm, fuzzy_in_order_length.
Qed.

Lemma fuzzy_top_nil user_input data tbls :
  fuzzy_top fuzz_score user_input data 3 tbls = [] ↔
  fuzzy_row_count data tbls = 0.
Proof.
  rewrite <- length_zero_iff_nil, fuzzy_top_length.
  destruct (fuzzy_row_count data tbls); simpl; lia.
Qed.

Lemma matches_in_order_no_rows user_input data tbls :
  fuzzy_row_count data tbls = 0 → matches_in_order user_input data tbls = [].
Proof.
  unfold fuzzy_row_count, matches_in_order.
  induction data as [|[file_name l] data IH]; [done |].
  rewrite fmap_cons. cbn [sum_list flat_map].
  intros [H1 H2]%Nat.eq_add_0.
  rewrite IH by exact H2. rewrite app_nil_r.
  destruct (has_qa _); [| done].
  unfold qa_rows.
  by destruct (col "Question" (default [] (tbls !! l))).
Qed.

Lemma scored_widget_bucket c : bucket_ok c (scored_widget c).
Proof.
  destruct c as [[[file_name question] score] answer]. simpl.
  destruct (90 <=? score)%Z eqn:E1; [apply Z.leb_le in E1; by split |].
  destruct (80 <=? score)%Z eqn:E2; [apply Z.leb_le in E2; apply Z.leb_gt in E1; by split |].
  destruct (70 <=? score)%Z eqn:E3; [apply Z.leb_le in E3; apply Z.leb_gt in E2; by split |].
  apply Z.leb_gt in E3. by split.
Qed.

(** X5.  The fuzzy branch of [display_response]: for a query that is not
    empty, when the common-word stage finds nothing and the fuzzy stage
    returns candidates, the function returns after showing the heading and
    one widget per candidate in their order, of the kind that goes with the
    score (success from 90, warning from 80, error from 70, info below);
    the university file is not read. *)
Theorem display_fuzzy_branch user_input data university_file_path w :
  user_input ≠ "" →
  let filtered_data := filter (λ kv, kv.1 ≠ university_file_path) data in
  (find_common_word_matches user_input filtered_data w).1 = [] →
  let matches := (get_best_matches fuzz_score user_input filtered_data 3 w).1 in
  matches ≠ [] →
  ∃ shown,
    display_response fuzz_score read_csv user_input data university_file_path w =
    (Returned,
     World (tables (get_best_matches fuzz_score user_input filtered_data 3 w).2)
           (screen w ++ st_write "### Fuzzy Matches" :: shown)
           (entered w ++ [CommonWordStage; FuzzyStage])) ∧
    Forall2 bucket_ok matches shown.
Proof.
  intros Hne filtered_data Hexact matches Hsome.
  exists (scored_widget <$> matches). split.
  - rewrite display_response_run. unfold display_result.
    rewrite decide_False by done. fold filtered_data.
    rewrite find_common_word_matches_run in Hexact. cbn [fst] in Hexact.
    rewrite Hexact. rewrite decide_False by (by intros H; apply H).
    subst matches. rewrite get_best_matches_run in Hsome |- *.
    cbn [fst snd tables] in Hsome |- *.
    unfold fuzzy_top. by rewrite decide_True by done.
  - apply Forall2_fmap_r, Forall2_same_length_lookup. split; [done |].
    intros i c c' Hc Hc'. assert (c = c') as <- by congruence.
    apply scored_widget_bucket.
Qed.



(** X7.  The last resort of [display_response]: for a query that is not
    empty, when no table of the search set with both columns has a row and
    the university file is read, the function returns.  If that table
    lacks one of the two columns nothing but the heading is shown; if it
    has both and no row, the heading and the warning that nothing was
    found; if it has rows, the heading and at most three of them. *)
Theorem display_last_resort user_input data university_file_path w csv :
  user_input ≠ "" →
  fuzzy_row_count (filter (λ kv, kv.1 ≠ university_file_path) data) (tables w) = 0 →
  read_csv university_file_path = Some csv →
  let r := display_response fuzz_score read_csv user_input data
             university_file_path w in
  r.1 = Returned ∧
  ∃ shown,
    screen r.2 = screen w ++ st_write "### Fuzzy Matches" :: shown ∧
    (has_qa csv = false → shown = []) ∧
    (has_qa csv = true → col "Question" csv = [] →
       shown = [st_warning "Sorry, no relevant answers found."]) ∧
    (has_qa csv = true → col "Question" csv ≠ [] →
       0 < length shown ≤ 3 ∧
       ∃ last, shown = scored_widget <$> last ∧
         ∀ c, c ∈ last → c.1.1.1 = "University").
Proof.
  intros Hne Hrows Hcsv r. subst r.
  rewrite display_response_run. unfold display_result.
  set (filtered_data := filter _ data) in *.
  rewrite decide_False by done.
  rewrite (matches_in_order_no_rows user_input _ _ Hrows).
  rewrite decide_False by (by intros H; apply H).
  rewrite (proj2 (fuzzy_top_nil user_input _ _) Hrows).
  rewrite decide_False by (by intros H; apply H).
  rewrite Hcsv. destruct (has_qa csv) eqn:Hqa; cbn [fst snd screen].
  - split; [done |]. eexists. split; [done |]. split; [done |].
    set (rows := fuzzy_rows fuzz_score user_input "University" (coerce csv)).
    assert (length rows = length (col "Question" csv)) as Hlen.
    { unfold rows. rewrite fuzzy_rows_length, coerce_question by done.
      unfold astype_str. apply length_fmap. }
    assert (length (slice_to 3 (sorted_desc rows)) = 3 `min` length rows) as Hlast.
    { unfold slice_to. simpl. by rewrite length_take, sorted_desc_perm. }
    split.
    + intros _ Hq. rewrite Hq in Hlen. simpl in Hlen.
      rewrite Hlen in Hlast. apply length_zero_iff_nil in Hlast. rewrite Hlast.
      by rewrite decide_False by (by intros H; apply H).
    + intros _ Hq.
      assert (0 < length rows) as Hpos.
      { rewrite Hlen. destruct (col "Question" csv); [done | simpl; lia]. }
      rewrite decide_True.
      * rewrite length_fmap, Hlast. split; [lia |].
        eexists. split; [done |].
        intros c Hc%elem_of_slice_to. rewrite sorted_desc_perm in Hc.
        unfold rows, fuzzy_rows in Hc.
        by apply list_elem_of_fmap in Hc as (q & -> & _).
      * intros Hnil. rewrite Hnil in Hlast. cbn [length] in Hlast. lia.
  - split; [done |]. exists []. split; [done |]. by repeat split.
Qed.

(** X8.  Whatever the query, [display_response] never shows the heading
    of the syllabus files; and for the empty query it shows nothing and
    changes nothing. *)
Theorem display_never_shows_syllabus user_input data university_file_path w :
  let r := display_response fuzz_score read_csv user_input data
             university_file_path w in
  (∃ shown, screen r.2 = screen w ++ shown ∧
            st_write "### Relevant Syllabus Files" ∉ shown) ∧
  (user_input = "" → r = (Returned, w)).
Proof.
  intros r. subst r. rewrite display_response_run. unfold display_result.
  assert (∀ l : list candidate,
            st_write "### Relevant Syllabus Files" ∉ exact_widget <$> l) as Hexw.
  { intros l (c & Hc & _)%list_elem_of_fmap. by destruct c as [[[? ?] ?] ?]. }
  assert (∀ l : list candidate,
            st_write "### Relevant Syllabus Files" ∉ scored_widget <$> l) as Hscw.
  { intros l (c & Hc & _)%list_elem_of_fmap.
    destruct c as [[[? ?] s] ?]. simpl in Hc.
    by repeat destruct (_ <=? s)%Z. }
  destruct (decide (user_input = "")) as [->|Hne].
  { split; [| done]. exists []. rewrite app_nil_r. split; [done |].
    by intros ?%elem_of_nil. }
  split; [| done].
  destruct (decide (matches_in_order _ _ _ ≠ [])) as [Hex|Hex].
  { eexists. split; [done |].
    intros [[=]|Hin]%elem_of_cons. by apply Hexw in Hin. }
  destruct (decide (fuzzy_top _ _ _ _ _ ≠ [])) as [Hfz|Hfz].
  { eexists. split; [done |].
    intros [[=]|Hin]%elem_of_cons. by apply Hscw in Hin. }
  destruct (read_csv university_file_path) as [csv|]; [destruct (has_qa csv) |];
    cbn [snd screen]; eexists; (split; [done |]).
  - destruct (decide (_ ≠ [])).
    + intros [[=]|Hin]%elem_of_cons. by apply Hscw in Hin.
    + intros [[=]|[[=]|[]%elem_of_nil]%elem_of_cons]%elem_of_cons.
  - intros [[=]|[]%elem_of_nil]%elem_of_cons.
  - intros [[=]|[]%elem_of_nil]%elem_of_cons.
Qed.

End DisplayRun.

(** X5 on one table without a word of the query, every score being 85. *)
Lemma display_fuzzy_branch_witness :
  let w := Matcher.World
             [[("Question", [Matcher.Str "alpha beta"]);
               ("Answer", [Matcher.Str "gamma"])]] [] [] in
  ∃ shown,
    Matcher.display_response (λ _ _, 85%Z) (λ _, None) "zzz" [("t.csv", 0)] "u.csv" w =
    (Matcher.Returned,
     Matcher.World
       (Matcher.tables
          (Matcher.get_best_matches (λ _ _, 85%Z) "zzz"
             (filter (λ kv, kv.1 ≠ "u.csv") [("t.csv", 0)]) 3 w).2)
       (Matcher.screen w ++ Matcher.st_write "### Fuzzy Matches" :: shown)
       (Matcher.entered w ++ [Matcher.CommonWordStage; Matcher.FuzzyStage])) ∧
    Forall2 bucket_ok
      (Matcher.get_best_matches (λ _ _, 85%Z) "zzz"
         (filter (λ kv, kv.1 ≠ "u.csv") [("t.csv", 0)]) 3 w).1 shown.
Proof.
  intros w.
  apply (display_fuzzy_branch (λ _ _, 85%Z) (λ _, None) "zzz" [("t.csv", 0)] "u.csv" w).
  - done.
  - reflexivity.
  - by vm_compute.
Defined.

(** X7 without any table, the university file having both columns and no
    row. *)
Lemma display_last_resort_witness :
  let w := Matcher.World [] [] [] in
  let csv := [("Question", []); ("Answer", [])] in
  let r := Matcher.display_response (λ _ _, 0%Z) (λ _, Some csv) "zzz" [] "u.csv" w in
  r.1 = Matcher.Returned ∧
  ∃ shown,
    Matcher.screen r.2 =
      Matcher.screen w ++ Matcher.st_write "### Fuzzy Matches" :: shown ∧
    (Matcher.has_qa csv = false → shown = []) ∧
    (Matcher.has_qa csv = true → Matcher.col "Question" csv = [] →
       shown = [Matcher.st_warning "Sorry, no relevant answers found."]) ∧
    (Matcher.has_qa csv = true → Matcher.col "Question" csv ≠ [] →
       0 < length shown ≤ 3 ∧
       ∃ last, shown = scored_widget <$> last ∧
         ∀ c, c ∈ last → c.1.1.1 = "University").
Proof.
  intros w csv.
  apply (display_last_resort (λ _ _, 0%Z) (λ _, Some csv) "zzz" [] "u.csv" w csv).
  - done.
  - reflexivity.
  - reflexivity.
Defined.

(** ** The common-word stage on a query without words *)

Section BlankQuery.
Import PyStr Matcher.

Lemma omap_row_match_blank file_name (rows : list (cell * cell)) :
  omap (row_match file_name ∅) rows =
  (λ row, (file_name, row.1, 100%Z, row.2)) <$> rows.
Proof.
  induction rows as [|row rows IH]; [done |]. csimpl.
  unfold row_match at 1. rewrite decide_True by set_solver.
  by rewrite IH.
Qed.

(** X9.  A query without any word (only white space) is matched by every
    row: the common-word stage records every row of every table with both
    columns, in order, with score 100. *)
Theorem blank_query_matches_every_row user_input data w :
  word_set user_input = ∅ →
  (find_common_word_matches user_input data w).1 =
  flat_map
    (λ '(file_name, l),
       let df := default [] (tables w !! l) in
       if has_qa df
       then (λ row, (file_name, row.1, 100%Z, row.2)) <$> qa_rows df
       else [])
    data.
Proof.
  intros Hblank. rewrite find_common_word_matches_run. cbn [fst].
  unfold matches_in_order. rewrite Hblank.
  induction data as [|[file_name l] data IH]; [done |]. simpl. rewrite IH.
  f_equal. destruct (has_qa _); [| done]. apply omap_row_match_blank.
Qed.

End BlankQuery.

(** X9 on a query of two spaces. *)
Lemma blank_query_matches_every_row_witness :
  (Matcher.find_common_word_matches "  " [("t.csv", 0)]
     (Matcher.World [[("Question", [Matcher.Str "q1"; Matcher.NaN]);
                      ("Answer", [Matcher.Str "a1"; Matcher.Str "a2"])]] [] [])).1 =
  [("t.csv", Matcher.Str "q1", 100%Z, Matcher.Str "a1");
   ("t.csv", Matcher.NaN, 100%Z, Matcher.Str "a2")].
Proof.
  by rewrite (blank_query_matches_every_row "  " [("t.csv", 0)]).
Defined.

(** ** [load_data_from_directory] *)

Section LoadFacts.
Import PyStr Matcher.

Variable listdir : string → option (list string).
Variable read_csv : string → option DataFrame.
Variable error_text : string → string.

Lemma dict_set_fresh {V} key (value : V) d :
  key ∉ d.*1 → dict_set key value d = d ++ [(key, value)].
Proof.
  induction d as [|[k v] d IH]; [done |]. simpl. intros Hnew.
  apply not_elem_of_cons in Hnew as [Hne Hnew].
  rewrite decide_False by done. by rewrite IH.
Qed.

Lemma eligible_test file_name :
  endswith file_name ".csv" && negb (bool_decide (file_name = university_file_name))
  = true ↔ eligible file_name.
Proof.
  unfold eligible. rewrite andb_true_iff, negb_true_iff, bool_decide_eq_false.
  done.
Qed.

Lemma load_file_run directory_path dataframes n w :
  load_file read_csv error_text directory_path university_file_name dataframes n w =
  if endswith n ".csv" && negb (bool_decide (n = university_file_name)) then
    match read_csv (os_path_join directory_path n) with
    | Some csv =>
        (dict_set n (length (tables w)) dataframes,
         World (tables w ++ [csv]) (screen w) (entered w))
    | None =>
        (dataframes,
         World (tables w) (screen w ++ [failure_line error_text directory_path n])
               (entered w))
    end
  else (dataframes, w).
Proof.
  unfold load_file. destruct (_ && _); [| done].
  by destruct (read_csv _).
Qed.

Lemma load_loop directory_path file_names : ∀ dataframes w,
  NoDup file_names →
  (∀ n, n ∈ file_names → n ∉ dataframes.*1) →
  foldM (load_file read_csv error_text directory_path university_file_name)
        file_names dataframes w =
  (dataframes ++
   zip (loaded_names read_csv directory_path file_names)
       (seq (length (tables w))
            (length (loaded_names read_csv directory_path file_names))),
   World (tables w ++
          omap (λ n, read_csv (os_path_join directory_path n))
               (loaded_names read_csv directory_path file_names))
         (screen w ++
          (failure_line error_text directory_path
             <$> failed_names read_csv directory_path file_names))
         (entered w)).
Proof.
  unfold loaded_names, failed_names.
  induction file_names as [|n file_names IH]; intros dataframes w Hnd Hfresh.
  - simpl. unfold ret. rewrite !app_nil_r. by destruct w.
  - apply NoDup_cons in Hnd as [Hn Hnd].
    cbn [foldM]. rewrite bind_run, load_file_run.
    rewrite !filter_cons.
    destruct (endswith n ".csv" && negb (bool_decide (n = university_file_name)))
      eqn:He.
    + apply eligible_test in He.
      destruct (read_csv (os_path_join directory_path n)) as [csv|] eqn:Hr.
      * rewrite decide_True by (split; [done | by eexists]).
        rewrite decide_False by (by intros [_ ?]).
        cbn [fst snd].
        rewrite dict_set_fresh by (apply Hfresh; by left).
        rewrite IH; [| done |].
        -- cbn [tables screen entered]. rewrite length_app. simpl.
           rewrite Hr. simpl. rewrite <- !app_assoc. simpl.
           by rewrite Nat.add_1_r.
        -- intros n' Hn'. rewrite fmap_app, elem_of_app. simpl.
           intros [Hd|Heq%list_elem_of_singleton].
           ++ apply (Hfresh n'); [by right | done].
           ++ by subst.
      * rewrite decide_False by (by intros [_ [? ?]]).
        rewrite decide_True by done.
        cbn [fst snd].
        rewrite IH; [| done | intros; apply Hfresh; by right].
        cbn [tables screen entered]. simpl. by rewrite <- !app_assoc.
    + assert (¬ eligible n) as Hne
        by (intros ?%eligible_test; congruence).
      rewrite !decide_False by (by intros [? _]).
      cbn [fst snd].
      apply IH; [done | intros; apply Hfresh; by right].
Qed.

(** X10.  What [load_data_from_directory] builds.  If listing the
    directory raises, so does the function, before anything is done.
    Otherwise it returns; with the listed names without repetition, the
    dictionary holds, in the order of the listing, the names that end in
    .csv, are not the name of the university file and are read without an
    exception; each stands for a new table holding what was read; the
    tables that were there are untouched; and one line is shown for each
    file whose reading raised. *)
Theorem load_data_from_directory_result directory_path w :
  match listdir directory_path with
  | None =>
      load_data_from_directory listdir read_csv error_text directory_path w
      = (None, w)
  | Some file_names =>
      NoDup file_names →
      let names := loaded_names read_csv directory_path file_names in
      load_data_from_directory listdir read_csv error_text directory_path w =
      (Some (zip names (seq (length (tables w)) (length names)),
             university_file_name),
       World (tables w ++ omap (λ n, read_csv (os_path_join directory_path n)) names)
             (screen w ++
              (failure_line error_text directory_path
                 <$> failed_names read_csv directory_path file_names))
             (entered w))
  end.
Proof.
  unfold load_data_from_directory.
  destruct (listdir directory_path) as [file_names|]; [| done].
  intros Hnd. rewrite bind_run.
  fold university_file_name.
  rewrite load_loop; [done | done |]. by intros n _ ?%elem_of_nil.
Qed.


Lemma elem_of_dict_set_keys {V} key (value : V) d k :
  k ∈ (dict_set key value d).*1 ↔ k = key ∨ k ∈ d.*1.
Proof.
  induction d as [|[k' v] d IH]; simpl.
  - rewrite list_elem_of_singleton, elem_of_nil. tauto.
  - destruct (decide (k' = key)) as [->|Hne]; simpl.
    + rewrite !elem_of_cons. tauto.
    + rewrite !elem_of_cons, IH. tauto.
Qed.

(** the keys of the dictionary are listed names that were tried *)
Lemma load_loop_keys directory_path file_names : ∀ dataframes w k,
  k ∈ (foldM (load_file read_csv error_text directory_path university_file_name)
             file_names dataframes w).1.*1 →
  k ∈ dataframes.*1 ∨ (k ∈ file_names ∧ eligible k).
Proof.
  induction file_names as [|n file_names IH]; intros dataframes w k; [by left |].
  cbn [foldM]. rewrite bind_run, load_file_run.
  destruct (endswith n ".csv" && negb (bool_decide (n = university_file_name)))
    eqn:He.
  - apply eligible_test in He.
    destruct (read_csv _) as [csv|]; cbn [fst snd]; intros Hk%IH.
    + destruct Hk as [Hk|[Hk ?]]; [| right; split; [by right | done]].
      apply elem_of_dict_set_keys in Hk as [->|Hk]; [right | by left].
      split; [by left | done].
    + destruct Hk as [Hk|[Hk ?]]; [by left | right; split; [by right | done]].
  - cbn [fst snd]. intros [Hk|[Hk ?]]%IH; [by left | right; split; [by right | done]].
Qed.

Lemma chars_rev_app s : ∀ t,
  chars (String.rev_app s t) = reverse (chars s) ++ chars t.
Proof.
  induction s as [|a s IH]; intros t; simpl; [done |].
  rewrite IH, reverse_cons, <- app_assoc. reflexivity.
Qed.

Lemma endswith_slash a : endswith a "/" = true → "/"%char ∈ chars a.
Proof.
  unfold endswith. change (String.rev "/") with "/". unfold String.rev.
  intros H.
  assert ("/"%char ∈ chars (String.rev_app a "")) as Hin.
  { destruct (String.rev_app a "") as [|c s]; [discriminate H |].
    change (String.prefix "/" (String c s))
      with (if ascii_dec "/" c then String.prefix "" s else false) in H.
    destruct (ascii_dec "/" c) as [<-|]; [by left | discriminate H]. }
  rewrite chars_rev_app in Hin. simpl in Hin. rewrite app_nil_r in Hin.
  by apply (proj1 (elem_of_reverse _ _)) in Hin.
Qed.

(** the path of the university file holds a slash, or is its bare name *)
Lemma university_path directory_path :
  os_path_join directory_path university_file_name = university_file_name ∨
  "/"%char ∈ chars (os_path_join directory_path university_file_name).
Proof.
  unfold os_path_join.
  assert (String.prefix "/" university_file_name = false) as -> by reflexivity.
  destruct (bool_decide (directory_path = "")) eqn:E; simpl.
  - apply bool_decide_eq_true in E as ->. by left.
  - right. destruct (endswith directory_path "/") eqn:Es.
    + rewrite chars_app. apply elem_of_app. left. by apply endswith_slash.
    + rewrite !chars_app. apply elem_of_app. right. apply elem_of_app. left.
      by left.
Qed.

(** X11.  The loader and [display_response] together: when no listed name
    holds a slash, the dictionary that [load_data_from_directory] returns
    has no entry for the university file, and the filter of
    [display_response] against the joined path of that file removes no
    entry of it; the university table is kept out of the search by the
    loader alone. *)
Theorem loaded_tables_pass_the_filter directory_path file_names w data
    university_file w' :
  listdir directory_path = Some file_names →
  (∀ n, n ∈ file_names → "/"%char ∉ chars n) →
  load_data_from_directory listdir read_csv error_text directory_path w =
    (Some (data, university_file), w') →
  university_file = university_file_name ∧
  (university_file ∉ data.*1) ∧
  filter (λ kv, kv.1 ≠ os_path_join directory_path university_file) data = data.
Proof.
  intros Hls Hslash. unfold load_data_from_directory. rewrite Hls, bind_run.
  fold university_file_name. unfold ret. intros [= <- <- _].
  set (data := (foldM _ _ _ _).1).
  assert (∀ k, k ∈ data.*1 → k ∈ file_names ∧ eligible k) as Hkeys.
  { intros k [[]%elem_of_nil|?]%load_loop_keys. done. }
  split; [done |]. split.
  - intros [_ [_ Hne]]%Hkeys. by apply Hne.
  - assert (Forall (λ kv : string * nat,
                      kv.1 ≠ os_path_join directory_path university_file_name) data)
      as Hall.
    { apply Forall_forall. intros [k l] Hin. simpl.
      assert (k ∈ data.*1) as [Hk [_ Hne]]%Hkeys
        by (apply list_elem_of_fmap; by exists (k, l)).
      destruct (university_path directory_path) as [->|Hs]; [done |].
      intros ->. by apply (Hslash _ Hk). }
    clear Hkeys. induction Hall as [|kv data' Hkv Hall IH]; [done |].
    by rewrite filter_cons_True, IH.
Qed.

End LoadFacts.

(** X10 on a directory of five names, one of which cannot be read. *)
Lemma load_data_from_directory_result_witness :
  let listdir := λ _ : string,
    Some ["b.csv"; "notes.txt"; "University_Website_Data_Question_Answer.csv";
          "bad.csv"; "a.csv"] in
  let read_csv := λ p : string,
    if decide (p = "D/bad.csv") then None
    else Some [("Question", [Matcher.Str p])] in
  Matcher.load_data_from_directory listdir read_csv (λ _, "no columns") "D"
    (Matcher.World [] [] []) =
  (Some ([("b.csv", 0); ("a.csv", 1)], "University_Website_Data_Question_Answer.csv"),
   Matcher.World [[("Question", [Matcher.Str "D/b.csv"])];
                  [("Question", [Matcher.Str "D/a.csv"])]]
                 [Matcher.st_write "Failed to read bad.csv: no columns"] []).
Proof.
  intros listdir read_csv.
  pose proof (load_data_from_directory_result listdir read_csv (λ _, "no columns")
                "D" (Matcher.World [] [] [])) as H.
  change (listdir "D") with
    (Some ["b.csv"; "notes.txt"; "University_Website_Data_Question_Answer.csv";
           "bad.csv"; "a.csv"]) in H.
  rewrite H; [reflexivity |].
  apply (bool_decide_unpack _). by vm_compute.
Defined.

(** X11 on the same directory. *)
Lemma loaded_tables_pass_the_filter_witness :
  let listdir := λ _ : string,
    Some ["b.csv"; "notes.txt"; "University_Website_Data_Question_Answer.csv";
          "bad.csv"; "a.csv"] in
  let read_csv := λ p : string,
    if decide (p = "D/bad.csv") then None
    else Some [("Question", [Matcher.Str p])] in
  filter (λ kv, kv.1 ≠ Matcher.os_path_join "D" "University_Website_Data_Question_Answer.csv")
         [("b.csv", 0); ("a.csv", 1)] = [("b.csv", 0); ("a.csv", 1)].
Proof.
  intros listdir read_csv.
  refine (proj2 (proj2 (loaded_tables_pass_the_filter listdir read_csv
            (λ _, "no columns") "D" _ (Matcher.World [] [] []) _ _ _ eq_refl _ eq_refl))).
  intros n Hn.
  repeat (apply elem_of_cons in Hn as [->|Hn];
          [by apply (bool_decide_unpack _); vm_compute |]).
  by apply elem_of_nil in Hn.
Defined.

(** ** The crawler: what every run keeps *)

Section CrawlerInvariants.
Import PyStr Crawler.

Variable web : nat → string → exn + response.

(** a relation between the states before and after that the steps of the
    crawler keep is kept by every run *)
Section Induction.

Variable R : state → state → Prop.

Hypothesis R_refl : ∀ st, R st st.
Hypothesis R_trans : ∀ st1 st2 st3, R st1 st2 → R st2 st3 → R st1 st3.
Hypothesis R_get : ∀ url st, R st (requests_get web url st).2.
Hypothesis R_pdf : ∀ url st text,
  R st (add_pdf_link url (visit url (save_to_file text st))).
Hypothesis R_visit : ∀ url st, R st (visit url st).
Hypothesis R_page : ∀ url st text,
  R st (visit url (add_success_link url (save_to_file text st))).
Hypothesis R_print : ∀ line st, R st (print line st).

Lemma extract_text_from_pdf_keeps url st :
  R st (extract_text_from_pdf web url st).1.
Proof.
  unfold extract_text_from_pdf, extract_try.
  destruct (bool_decide _); [| apply R_refl].
  pose proof (R_get url st) as Hget. unfold requests_get in *. simpl in Hget.
  destruct (web (requests_sent st) url) as [e|r]; simpl.
  { eapply R_trans; [exact Hget | apply R_visit]. }
  destruct (content_type r) as [ct|]; simpl;
    [| eapply R_trans; [exact Hget | apply R_visit]].
  destruct (contains "application/pdf" ct); simpl; [| exact Hget].
  destruct (pdf_pages r) as [pages|]; simpl;
    [| eapply R_trans; [exact Hget | apply R_visit]].
  eapply R_trans; [exact Hget | apply R_pdf].
Qed.

Lemma follow_links_keeps rec links :
  (∀ u s, R s (rec u s).1) →
  ∀ st, R st (follow_links web rec links st).1.
Proof.
  intros Hrec. induction links as [|link links IH]; intros st; simpl;
    [apply R_refl |].
  assert (R st (follow_link web rec link st).1) as H.
  { unfold follow_link. destruct link as [href|]; [| apply R_refl].
    destruct (_ && _); [| apply R_refl].
    destruct (endswith _ _); [apply extract_text_from_pdf_keeps | apply Hrec]. }
  destruct (follow_link web rec link st) as [st' [|e|]]; simpl in *;
    [| done | done].
  eapply R_trans; [exact H | apply IH].
Qed.

Lemma web_scraping_text_keeps fuel : ∀ url st,
  R st (web_scraping_text web fuel url st).1.
Proof.
  induction fuel as [|fuel IH]; intros url st; simpl; [apply R_refl |].
  destruct (_ && _); [| apply R_refl].
  unfold scrape_try.
  pose proof (R_get url st) as Hget. unfold requests_get in *. simpl in Hget.
  destruct (web (requests_sent st) url) as [e|r]; simpl.
  { destruct e as [msg|msg|]; simpl; [| | exact Hget];
      (eapply R_trans; [exact Hget |]);
      (eapply R_trans; [apply R_visit | apply R_print]). }
  match goal with |- context [follow_links web ?rec ?links ?s] =>
    assert (R st s) as Hs;
    [| pose proof (follow_links_keeps rec links IH s) as Hl;
       destruct (follow_links web rec links s) as [st' [|[msg|msg|]|]] ]
  end; simpl in *.
  - eapply R_trans; [exact Hget |].
    destruct (bool_decide _); [apply R_page | apply R_visit].
  - by eapply R_trans.
  - eapply R_trans; [exact Hs |]. eapply R_trans; [exact Hl |].
    eapply R_trans; [apply R_visit | apply R_print].
  - eapply R_trans; [exact Hs |]. eapply R_trans; [exact Hl |].
    eapply R_trans; [apply R_visit | apply R_print].
  - by eapply R_trans.
  - by eapply R_trans.
Qed.

End Induction.


Lemma string_app_assoc (a b c : string) : (a +:+ b) +:+ c = a +:+ (b +:+ c).
Proof.
  induction a as [|x a IH]; [done |].
  change (String x ((a +:+ b) +:+ c) = String x (a +:+ (b +:+ c))).
  by f_equal.
Qed.

Lemma string_app_nil_r (a : string) : a +:+ "" = a.
Proof.
  induction a as [|x a IH]; [done |].
  change (String x (a +:+ "") = String x a). by f_equal.
Qed.

Lemma grows_refl st : grows st st.
Proof.
  split; [exists ""; by rewrite string_app_nil_r | by repeat split].
Qed.

Lemma grows_trans st1 st2 st3 : grows st1 st2 → grows st2 st3 → grows st1 st3.
Proof.
  intros ([a1 Hc1] & Hv1 & Hp1 & Hs1 & Ho1) ([a2 Hc2] & Hv2 & Hp2 & Hs2 & Ho2).
  split; [exists (a1 +:+ a2); by rewrite Hc2, Hc1, string_app_assoc |].
  repeat split; by etrans.
Qed.

(** X12.  Nothing that a run of the crawler, or a call of the PDF
    extractor, has written is taken back: the corpus after the run is the
    corpus before it with text appended, and [visited_links], [pdf_links],
    [success_links] and the standard output after the run start with what
    they held before. *)
Theorem crawler_logs_only_grow fuel url st :
  grows st (web_scraping_text web fuel url st).1 ∧
  grows st (extract_text_from_pdf web url st).1.
Proof.
  assert (∀ s, grows s s) as Hrefl by apply grows_refl.
  assert (∀ u s, grows s (requests_get web u s).2) as Hget.
  { intros u s. split; [exists ""; by rewrite string_app_nil_r | by repeat split]. }
  assert (∀ u s, grows s (visit u s)) as Hvisit.
  { intros u s. split; [exists ""; by rewrite string_app_nil_r |].
    split; [by apply prefix_app_r | by repeat split]. }
  assert (∀ line s, grows s (print line s)) as Hprint.
  { intros line s. split; [exists ""; by rewrite string_app_nil_r |].
    repeat split; try done. by apply prefix_app_r. }
  assert (∀ u s text, grows s (add_pdf_link u (visit u (save_to_file text s))))
    as Hpdf.
  { intros u s text. split; [by exists text |].
    repeat split; try done; by apply prefix_app_r. }
  assert (∀ u s text, grows s (visit u (add_success_link u (save_to_file text s))))
    as Hpage.
  { intros u s text. split; [by exists text |].
    repeat split; try done; by apply prefix_app_r. }
  split.
  - apply (web_scraping_text_keeps grows); first [assumption | exact grows_trans].
  - apply (extract_text_from_pdf_keeps grows); first [assumption | exact grows_trans].
Qed.

(** X13.  If every address of [pdf_links] and of [success_links] is in
    [visited_links] before a run of the crawler, or a call of the PDF
    extractor, then so it is after it. *)
Theorem logged_links_are_visited fuel url st :
  logged_visited st →
  logged_visited (web_scraping_text web fuel url st).1 ∧
  logged_visited (extract_text_from_pdf web url st).1.
Proof.
  set (R := λ s s' : state, logged_visited s → logged_visited s').
  assert (∀ s, R s s) as Hrefl by (intros s H; exact H).
  assert (∀ s1 s2 s3, R s1 s2 → R s2 s3 → R s1 s3) as Htrans
    by (intros s1 s2 s3 H12 H23 H; by apply H23, H12).
  assert (∀ u s, R s (requests_get web u s).2) as Hget by (intros u s H; exact H).
  assert (∀ u s, R s (visit u s)) as Hvisit.
  { intros u s H v Hv. simpl in *. apply elem_of_app. left. by apply H. }
  assert (∀ line s, R s (print line s)) as Hprint by (intros line s H; exact H).
  assert (∀ u s text, R s (add_pdf_link u (visit u (save_to_file text s))))
    as Hpdf.
  { intros u s text H v. simpl. rewrite !elem_of_app, list_elem_of_singleton.
    intros [[Hv| ->]|Hv]; [left; apply H; by left | by right |
                           left; apply H; by right]. }
  assert (∀ u s text, R s (visit u (add_success_link u (save_to_file text s))))
    as Hpage.
  { intros u s text H v. simpl. rewrite !elem_of_app, list_elem_of_singleton.
    intros [Hv|[Hv| ->]]; [left; apply H; by left |
                           left; apply H; by right | by right]. }
  intros Hst. split.
  - by apply (web_scraping_text_keeps R).
  - by apply (extract_text_from_pdf_keeps R).
Qed.

Lemma web_scraping_text_visited url st fuel :
  url ∈ visited_links st →
  web_scraping_text web (S fuel) url st = (st, Normal).
Proof.
  intros Hv. simpl. by rewrite bool_decide_eq_false_2 by (by intros H; apply H).
Qed.

(** after a run that got past its test and did not raise, the address is
    in [visited_links] *)
Lemma web_scraping_text_marks fuel url st :
  url ∉ visited_links st → in_domain url →
  (∀ e, (web_scraping_text web (S fuel) url st).2 ≠ Raise e) →
  url ∈ visited_links (web_scraping_text web (S fuel) url st).1.
Proof.
  intros Hnew Hd. simpl.
  rewrite bool_decide_eq_true_2 by done. rewrite Hd. simpl.
  unfold scrape_try, requests_get.
  destruct (web (requests_sent st) url) as [e|r]; simpl.
  { destruct e as [msg|msg|]; simpl; intros Hno;
      [| | by destruct (Hno OtherException)];
      apply elem_of_app; right; by left. }
  match goal with |- context [follow_links web ?rec ?links ?s] =>
    assert (url ∈ visited_links s) as Hs
      by (simpl; apply elem_of_app; right; by left);
    pose proof (follows_follow_links web rec links
                  (follows_web_scraping_text web fuel) s) as Hf;
    destruct (follow_links web rec links s) as [st' [|[msg|msg|]|]]
  end; simpl in *; intros Hno.
  - by eapply follows_visited.
  - apply elem_of_app; right; by left.
  - apply elem_of_app; right; by left.
  - by destruct (Hno OtherException).
  - by eapply follows_visited.
Qed.

(** X14.  Crawling an address a second time does nothing: after a run
    from an address that did not raise, a further run from the same
    address sends no request and leaves every list and the corpus as they
    are. *)
Theorem second_crawl_is_idle fuel fuel' url st :
  (∀ e, (web_scraping_text web (S fuel) url st).2 ≠ Raise e) →
  web_scraping_text web (S fuel') url (web_scraping_text web (S fuel) url st).1 =
  ((web_scraping_text web (S fuel) url st).1, Normal).
Proof.
  intros Hno.
  destruct (decide (url ∈ visited_links st)) as [Hv|Hnew].
  { rewrite (web_scraping_text_visited url st fuel Hv).
    by apply web_scraping_text_visited. }
  destruct (contains "csvtu.ac.in" url) eqn:Hd.
  - apply web_scraping_text_visited. by apply web_scraping_text_marks.
  - assert (∀ f s, web_scraping_text web (S f) url s = (s, Normal)) as Hout.
    { intros f s. simpl. by rewrite Hd, andb_false_r. }
    by rewrite !Hout.
Qed.

End CrawlerInvariants.

(** X13 from the state in which a crawl starts, on the small site. *)
Lemma logged_links_are_visited_witness :
  logged_visited
    (Crawler.web_scraping_text small_site 6 "https://csvtu.ac.in/ew/" Crawler.initial).1.
Proof.
  apply (logged_links_are_visited small_site 6 "https://csvtu.ac.in/ew/" Crawler.initial).
  intros u [[]%elem_of_nil|[]%elem_of_nil].
Defined.

(** X14 on the small site. *)
Lemma second_crawl_is_idle_witness :
  let st' := (Crawler.web_scraping_text small_site 6 "https://csvtu.ac.in/ew/"
                Crawler.initial).1 in
  Crawler.web_scraping_text small_site 1 "https://csvtu.ac.in/ew/" st' =
  (st', Crawler.Normal).
Proof.
  intros st'.
  apply (second_crawl_is_idle small_site 5 0 "https://csvtu.ac.in/ew/" Crawler.initial).
  intros e. by vm_compute.
Defined.

(** ** The crawler: a page is requested once *)

Section PageOnce.
Import PyStr Crawler.

Variable web : nat → string → exn + response.

Lemma answered_nil o : answered [] o.
Proof. intros a b u H. by destruct a. Qed.

Lemma marks_same st st' :
  trace st' = trace st → marks st (st', Normal).
Proof.
  intros Ht. exists []. rewrite app_nil_r. split; [done |].
  split; [apply answered_nil | done].
Qed.

Lemma answered_app n1 n2 o :
  answered n1 Normal → answered n2 o → answered (n1 ++ n2) o.
Proof.
  intros H1 H2 a b u Heq Hpage.
  apply app_eq_app in Heq as [l [[Hn1 Hb]|[-> Hn2]]].
  - destruct l as [|e l].
    + rewrite app_nil_r in Hn1. subst a. simpl in Hb.
      apply (H2 [] b u); [by rewrite Hb | done].
    + injection Hb as <- ->.
      destruct (H1 a l u Hn1 Hpage) as [[_ [=]]|[b' ->]].
      right. by exists (b' ++ n2).
  - by apply (H2 _ _ _ Hn2).
Qed.

Lemma marks_seq st st1 r :
  marks st (st1, Normal) → marks st1 r → marks st r.
Proof.
  intros (n1 & Ht1 & Ha1 & _) (n2 & Ht2 & Ha2 & Hc & Hr). simpl in *.
  exists (n1 ++ n2). split; [by rewrite Ht2, Ht1, app_assoc |].
  split; [by apply answered_app | done].
Qed.


Lemma marks_extract_text_from_pdf url st :
  is_pdf_link url → marks st (extract_text_from_pdf web url st).
Proof.
  intros Hpdf.
  destruct (follows_extract_text_from_pdf web url st) as (new & Ht & _ & _ & Hu).
  exists new. split; [done |]. rewrite extract_text_from_pdf_normal.
  split; [| done]. intros a b u -> Hpage. destruct Hpage.
  rewrite (Hu u); [done |]. apply elem_of_app. right. by left.
Qed.

Lemma marks_follow_links rec links :
  (∀ u s, ¬ is_pdf_link u → marks s (rec u s)) →
  ∀ st, marks st (follow_links web rec links st).
Proof.
  intros Hrec. induction links as [|link links IH]; intros st; simpl;
    [by apply marks_same |].
  assert (marks st (follow_link web rec link st)) as H.
  { unfold follow_link. destruct link as [href|]; [| by apply marks_same].
    destruct (_ && _); [| by apply marks_same].
    destruct (endswith (lower href) ".pdf") eqn:E.
    - by apply marks_extract_text_from_pdf.
    - apply Hrec. unfold is_pdf_link. by rewrite E. }
  destruct (follow_link web rec link st) as [st' [|e|]]; [| done | done].
  eapply marks_seq; [exact H | apply IH].
Qed.

Lemma marks_web_scraping_text fuel : ∀ url st,
  ¬ is_pdf_link url → marks st (web_scraping_text web fuel url st).
Proof.
  induction fuel as [|fuel IH]; intros url st Hpage; simpl.
  { exists []. rewrite app_nil_r. split; [done |]. split; [apply answered_nil | done]. }
  destruct (_ && _); [| by apply marks_same].
  unfold scrape_try, requests_get.
  assert (answered [Get url; Visited url] Normal) as Hpair.
  { intros a b u Heq _. destruct a as [|e1 [|e2 [|e3 a]]]; try done.
    injection Heq as <- <-. right. by eexists. }
  destruct (web (requests_sent st) url) as [e|r]; simpl.
  { destruct e as [msg|msg|]; simpl.
    - exists [Get url; Visited url]. simpl. by rewrite <- app_assoc.
    - exists [Get url; Visited url]. simpl. by rewrite <- app_assoc.
    - exists [Get url]. simpl. split; [done |]. split; [| done].
      intros a b u Heq _. destruct a as [|e1 [|e2 a]]; try done.
      injection Heq as <- <-. by left. }
  match goal with |- context [follow_links web ?rec ?links ?s] =>
    assert (marks st (s, Normal)) as Hs;
    [| pose proof (marks_follow_links rec links IH s) as Hl;
       destruct (follow_links web rec links s) as [st' [|[msg|msg|]|]] eqn:El ]
  end.
  - exists [Get url; Visited url]. split; [| done].
    destruct (bool_decide _); simpl; by rewrite <- app_assoc.
  - by eapply marks_seq.
  - by destruct Hl as (_ & _ & _ & Hc & _); destruct (Hc msg).
  - by destruct Hl as (_ & _ & _ & _ & Hr); destruct (Hr msg).
  - by eapply marks_seq.
  - by eapply marks_seq.
Qed.

(** X15.  A page address is requested at most once in a run of the
    crawler.  For an address [u] that is no PDF link, in the log [new] of a
    run from a page address: each request for [u] is followed at once by
    the append of [u] to [visited_links], unless the request is the last
    event and the run ends by raising; and [u] is not requested twice. *)
Theorem page_is_requested_once fuel url st u :
  ¬ is_pdf_link url → ¬ is_pdf_link u →
  ∃ new,
    trace (web_scraping_text web fuel url st).1 = trace st ++ new ∧
    (∀ a b, new = a ++ Get u :: b →
       (b = [] ∧ (web_scraping_text web fuel url st).2 = Raise OtherException) ∨
       (∃ b', b = Visited u :: b')) ∧
    (∀ a b c, new ≠ a ++ Get u :: b ++ Get u :: c).
Proof.
  intros Hurl Hu.
  destruct (marks_web_scraping_text fuel url st Hurl) as (new & Ht & Ha & _).
  destruct (follows_plain _ _ _ (follows_web_scraping_text web fuel url st))
    as (new' & Ht' & _ & _ & Hafter & _).
  assert (new' = new) as -> by (rewrite Ht in Ht'; by apply app_inv_head in Ht').
  exists new. split; [done |]. split; [intros a b Heq; by apply (Ha a b u) |].
  intros a b c Heq.
  destruct (Ha a (b ++ Get u :: c) u Heq Hu) as [[Hnil _]|[b' Hb]].
  - by destruct b.
  - rewrite Hb in Heq.
    apply (Hafter (a ++ [Get u]) b' u); [by rewrite <- app_assoc |].
    destruct b as [|e b]; simpl in Hb; [done |].
    injection Hb as -> <-. apply elem_of_app. right. by left.
Qed.

End PageOnce.

(** X15 on the small site, for one of its pages. *)
Lemma page_is_requested_once_witness :
  ∃ new,
    Crawler.trace
      (Crawler.web_scraping_text small_site 6 "https://csvtu.ac.in/ew/"
         Crawler.initial).1 = Crawler.trace Crawler.initial ++ new ∧
    (∀ a b, new = a ++ Crawler.Get "https://csvtu.ac.in/a" :: b →
       (b = [] ∧
        (Crawler.web_scraping_text small_site 6 "https://csvtu.ac.in/ew/"
           Crawler.initial).2 = Crawler.Raise Crawler.OtherException) ∨
       (∃ b', b = Crawler.Visited "https://csvtu.ac.in/a" :: b')) ∧
    (∀ a b c, new ≠ a ++ Crawler.Get "https://csvtu.ac.in/a" :: b ++
                         Crawler.Get "https://csvtu.ac.in/a" :: c).
Proof.
  apply (page_is_requested_once small_site 6 "https://csvtu.ac.in/ew/"
           Crawler.initial "https://csvtu.ac.in/a").
  - by vm_compute.
  - by vm_compute.
Defined.

(** ** When the common-word stage finds nothing *)

Section NoCommonWord.
Import PyStr Matcher.

Lemma row_match_None file_name user_words row :
  row_match file_name user_words row = None ↔
  user_words ≠ ∅ ∧ user_words ∩ (cell_words row.1 ∪ cell_words row.2) = ∅.
Proof.
  unfold row_match.
  destruct (decide (user_words ⊆ _)) as [Hs|Hs].
  - split; [done |]. intros [Hne Hi]. destruct Hne. set_solver.
  - destruct (decide (_ ≠ ∅)) as [Hi|Hi].
    + split; [done |]. by intros [_ ?].
    + apply dec_stable in Hi. split; [| done]. intros _.
      split; [| done]. intros ->. apply Hs. set_solver.
Qed.

(** X16.  The fuzzy stage is reached for a query exactly when the
    common-word stage records nothing, and that is the case exactly when
    every row of every table of the collection with both columns shares no
    word with the query, the query having at least one word. *)
Theorem common_word_stage_finds_nothing_iff user_input data w :
  (find_common_word_matches user_input data w).1 = [] ↔
  ∀ file_name l df question answer,
    (file_name, l) ∈ data → tables w !! l = Some df → has_qa df = true →
    (question, answer) ∈ qa_rows df →
    word_set user_input ≠ ∅ ∧
    word_set user_input ∩ (cell_words question ∪ cell_words answer) = ∅.
Proof.
  rewrite find_common_word_matches_run. cbn [fst]. split.
  - intros Hnil file_name l df question answer Hin Hl Hqa Hrow.
    apply (row_match_None file_name _ (question, answer)).
    destruct (row_match file_name (word_set user_input) (question, answer))
      as [c|] eqn:Hm; [| done].
    assert (c ∈ matches_in_order user_input data (tables w)) as Hc.
    { apply elem_of_matches_in_order.
      exists file_name, l, (question, answer). by rewrite Hl. }
    rewrite Hnil in Hc. by apply elem_of_nil in Hc.
  - intros Hall.
    destruct (matches_in_order user_input data (tables w)) as [|c cs] eqn:E;
      [done |].
    assert (c ∈ matches_in_order user_input data (tables w)) as Hc
      by (rewrite E; by left).
    apply elem_of_matches_in_order in Hc
      as (file_name & l & [question answer] & Hin & Hqa & Hrow & Hm).
    destruct (tables w !! l) as [df|] eqn:Hl; simpl in *; [| done].
    pose proof (Hall file_name l df question answer Hin Hl Hqa Hrow) as Hno.
    apply (row_match_None file_name _ (question, answer)) in Hno. congruence.
Qed.

End NoCommonWord.
